(** * RoadMail: a shallow embedding of [roadmail/mail.py]

    The development follows the module top to bottom: the value types
    ([EmailStatus], [Attachment], [EmailAddress], [Email], [EmailTemplate]),
    template rendering, the two transports, and the [Mailer] send pipeline
    with its hooks, its message table and [stats].

    Python objects that are shared by reference (an [Email] is handed to the
    hooks, captured by [MockTransport] and stored in the mailer's table) live
    in a heap and are passed around as locations.  Calls into the
    environment ([uuid.uuid4], [datetime.now], [smtplib]) read from oracles
    carried in the state. *)

From stdpp Require Import base option list strings gmap fin_maps pretty.
From Stdlib Require Import ZArith Ascii Lia.

#[local] Arguments String.append s1 s2 : simpl nomatch.
#[local] Arguments String.length s : simpl nomatch.

(** ** Python [str] operations used by the source *)

Module Str.

(** [s[n:]] *)
Fixpoint drop (n : nat) (s : string) : string :=
  match n, s with
  | O, _ => s
  | S _, EmptyString => EmptyString
  | S k, String _ s' => drop k s'
  end.

(** [s.startswith(p)] *)
Fixpoint startswith (s p : string) {struct p} : bool :=
  match p, s with
  | EmptyString, _ => true
  | String _ _, EmptyString => false
  | String c p', String c' s' => if Ascii.eqb c c' then startswith s' p' else false
  end.

(** [s.replace("", new)]: [new] is inserted before every character and at
    the end. *)
Fixpoint replace_empty (new s : string) : string :=
  match s with
  | EmptyString => new
  | String c s' => new +:+ String c (replace_empty new s')
  end.

(** Left-to-right scan of [s.replace(old, new)] for a non-empty [old]:
    [skip] counts the characters of the occurrence just replaced that are
    still to be stepped over, so that occurrences never overlap. *)
Fixpoint replace_scan (old new : string) (skip : nat) (s : string) : string :=
  match s with
  | EmptyString => EmptyString
  | String c s' =>
      match skip with
      | S k => replace_scan old new k s'
      | O =>
          if startswith s old
          then new +:+ replace_scan old new (String.length old - 1) s'
          else String c (replace_scan old new 0 s')
      end
  end.

(** [s.replace(old, new)] *)
Definition replace (s old new : string) : string :=
  match old with
  | EmptyString => replace_empty new s
  | String _ _ => replace_scan old new 0 s
  end.

(** [s.find(sub)], as the offset of the leftmost occurrence *)
Fixpoint find (s sub : string) : option nat :=
  if startswith s sub then Some 0
  else match s with
       | EmptyString => None
       | String _ s' => S <$> find s' sub
       end.

(** [sub in s] *)
Definition contains (s sub : string) : bool := bool_decide (is_Some (find s sub)).

(** [s[:n]] *)
Fixpoint take (n : nat) (s : string) : string :=
  match n, s with
  | O, _ => EmptyString
  | S _, EmptyString => EmptyString
  | S k, String c s' => String c (take k s')
  end.

(** [sep.join(parts)] *)
Fixpoint join (sep : string) (parts : list string) : string :=
  match parts with
  | [] => ""
  | [p] => p
  | p :: ps => p +:+ sep +:+ join sep ps
  end.

(** [s.split(sep)] for a one-character separator *)
Fixpoint split (sep : Ascii.ascii) (s : string) : list string :=
  match s with
  | EmptyString => [""]
  | String c s' =>
      if Ascii.eqb c sep then "" :: split sep s'
      else match split sep s' with
           | [] => [String c ""]
           | p :: ps => String c p :: ps
           end
  end.

End Str.

(** ** Python values that reach [str(...)] *)

(** Values of the [Dict[str, Any]] mappings ([context], [metadata]). *)
Inductive PyVal : Type :=
| VStr (s : string)
| VInt (z : Z)
| VBool (b : bool)
| VNone.

(** [str(value)] *)
Definition py_str (value : PyVal) : string :=
  match value with
  | VStr s => s
  | VInt z => pretty z
  | VBool true => "True"
  | VBool false => "False"
  | VNone => "None"
  end.

(** The result of a call that may raise: [Raise e] carries [str(e)] of an
    instance of [Exception], which is what the source's [except Exception]
    clauses catch.  Signals that derive from [BaseException] only
    ([KeyboardInterrupt], [SystemExit]) are outside the model. *)
Inductive Outcome (A : Type) : Type :=
| Return (a : A)
| Raise (e : string).
Arguments Return {A} a.
Arguments Raise {A} e.

(** ** Data model *)

Inductive EmailStatus : Type :=
| PENDING | SENDING | SENT | FAILED | BOUNCED | DELIVERED | OPENED | CLICKED.

#[global] Instance EmailStatus_eq_dec : EqDecision EmailStatus.
Proof. solve_decision. Defined.

(** [EmailStatus.value] *)
Definition EmailStatus_value (s : EmailStatus) : string :=
  match s with
  | PENDING => "pending" | SENDING => "sending" | SENT => "sent"
  | FAILED => "failed" | BOUNCED => "bounced" | DELIVERED => "delivered"
  | OPENED => "opened" | CLICKED => "clicked"
  end.

Module Attachment.
Record t : Type := mk {
  filename : string;
  content : list Byte.byte;
  content_type : string   (* default "application/octet-stream" *)
}.
End Attachment.

Module EmailAddress.
Record t : Type := mk {
  email : string;
  name : string           (* default "" *)
}.

(** [__str__] *)
Definition str (self : t) : string :=
  match name self with
  | EmptyString => email self
  | String _ _ => name self +:+ " <" +:+ email self +:+ ">"
  end.
End EmailAddress.

(** Timestamps ([datetime]) are points on the integer line. *)
Definition datetime : Type := Z.

Module Email.
Record t : Type := mk {
  id : string;
  to : list EmailAddress.t;
  subject : string;
  body_text : string;
  body_html : string;
  from_addr : option EmailAddress.t;
  reply_to : option EmailAddress.t;
  cc : list EmailAddress.t;
  bcc : list EmailAddress.t;
  attachments : list Attachment.t;
  headers : list (string * string);      (* dict, in insertion order *)
  status : EmailStatus;
  created_at : datetime;
  sent_at : option datetime;
  error : option string;
  tracking_id : option string;
  metadata : list (string * PyVal)       (* dict, in insertion order *)
}.

(** [email.status = s] *)
Definition set_status (s : EmailStatus) (e : t) : t :=
  mk (id e) (to e) (subject e) (body_text e) (body_html e) (from_addr e)
     (reply_to e) (cc e) (bcc e) (attachments e) (headers e) s
     (created_at e) (sent_at e) (error e) (tracking_id e) (metadata e).

(** [email.sent_at = d] *)
Definition set_sent_at (d : option datetime) (e : t) : t :=
  mk (id e) (to e) (subject e) (body_text e) (body_html e) (from_addr e)
     (reply_to e) (cc e) (bcc e) (attachments e) (headers e) (status e)
     (created_at e) d (error e) (tracking_id e) (metadata e).

(** [email.error = x] *)
Definition set_error (x : option string) (e : t) : t :=
  mk (id e) (to e) (subject e) (body_text e) (body_html e) (from_addr e)
     (reply_to e) (cc e) (bcc e) (attachments e) (headers e) (status e)
     (created_at e) (sent_at e) x (tracking_id e) (metadata e).
End Email.

Module EmailTemplate.
Record t : Type := mk {
  id : string;
  name : string;
  subject : string;
  body_text : string;      (* default "" *)
  body_html : string;      (* default "" *)
  variables : list string
}.

(** [f"{{{{{key}}}}}"] *)
Definition placeholder (key : string) : string := "{{" +:+ key +:+ "}}".

(** One iteration of the loop of [render]. *)
Definition render_step (acc : string * string * string) (item : string * PyVal)
  : string * string * string :=
  let '(subject, body_text, body_html) := acc in
  let '(key, value) := item in
  (Str.replace subject (placeholder key) (py_str value),
   Str.replace body_text (placeholder key) (py_str value),
   Str.replace body_html (placeholder key) (py_str value)).

(** [render(self, context)]; [context] is [context.items()], the entries of
    the dict in insertion order. *)
Definition render (self : t) (context : list (string * PyVal))
  : string * string * string :=
  fold_left render_step context (subject self, body_text self, body_html self).
End EmailTemplate.

(** ** Heap, hooks, log and environment *)

(** A reference to an [Email] object. *)
Definition loc : Type := nat.

(** A hook is any callable taking the message.  It may assign to the fields
    of the object it is handed (first component: the message as the hook
    leaves it) and may raise ([Some e]) instead of returning ([None]); what
    it returns is discarded by the caller.  What a hook does to anything
    but the message it is handed (another message it kept a reference to,
    the mailer itself) is outside the model. *)
Definition Handler : Type := Email.t -> Email.t * option string.

(** Records written through [logger]. *)
Inductive LogRecord : Type :=
| Log_mock_sending (to : list string)         (* info: Mock sending email to [...] *)
| Log_smtp_error (e : string)                 (* error: SMTP error: e *)
| Log_hook_error (e : string)                 (* error: Hook error: e *)
| Log_template_not_found (template_id : string). (* error: Template not found: id *)

(** Observation points of a run, kept in call order.  They are not program
    state: no method reads them; the properties are stated over them. *)
Inductive Event : Type :=
| Created (email : loc) (value : Email.t)
| HookCall (event : string) (handler : Handler) (email : loc) (seen : Email.t)
| TransportCall (email : loc) (seen : Email.t) (result : Outcome bool).

Record World : Type := mkWorld {
  heap : list Email.t;        (* the Email objects allocated so far *)
  uuid4 : nat -> string;      (* str(uuid.uuid4()), by call number *)
  uuid_calls : nat;
  now : nat -> datetime;      (* datetime.now(), by call number *)
  now_calls : nat;
  log : list LogRecord;
  trace : list Event
}.

(** ** Transports *)

(** The capability [send(email)]: the transport receives the reference and
    reads the object behind it, as the two transports of the module do; it
    returns its own next state, what it logged, and [True]/[False] or the
    exception it raised. *)
Class Transport (T : Type) : Type :=
  transport_send : T -> loc -> Email.t -> T * list LogRecord * Outcome bool.

(** *** MIME message assembled by [SMTPTransport.send] *)

Inductive MIMEPart : Type :=
| MIMEText (text : string) (subtype : string)
| MIMEBase (maintype subtype : string) (payload : list Byte.byte)
           (disposition : string).   (* payload is base64-encoded on the wire *)

Record MIMEMultipart : Type := mkMIME {
  mime_subtype : string;
  mime_headers : list (string * string);
  mime_parts : list MIMEPart
}.

(** One [server.sendmail(from_addr, to_addrs, msg)] call; [env_data]
    stands for the text [msg.as_string()]. *)
Record Envelope : Type := mkEnvelope {
  env_from : string;
  env_rcpt : list string;
  env_data : MIMEMultipart
}.

(** What stands behind [smtplib.SMTP]: for each request the error the
    library raises, if any, and the envelopes handed to [sendmail] so far. *)
Record Smtplib : Type := mkSmtplib {
  smtp_connect : string -> Z -> option string;
  smtp_starttls : option string;
  smtp_login : string -> string -> option string;
  smtp_sendmail : Envelope -> option string;
  smtp_submitted : list Envelope
}.

Definition smtp_submit (env : Envelope) (w : Smtplib) : Smtplib :=
  mkSmtplib (smtp_connect w) (smtp_starttls w) (smtp_login w) (smtp_sendmail w)
            (smtp_submitted w ++ [env]).

Module SMTPTransport.
Record t : Type := mk {
  host : string;
  port : Z;
  username : string;
  password : string;
  use_tls : bool;
  wire : Smtplib
}.

Definition set_wire (w : Smtplib) (self : t) : t :=
  mk (host self) (port self) (username self) (password self) (use_tls self) w.

(** [str(email.from_addr)]; [str(None)] is the text None. *)
Definition str_from (a : option EmailAddress.t) : string :=
  match a with
  | Some a => EmailAddress.str a
  | None => "None"
  end.

(** The header assignments of lines 107-117, in order. *)
Definition build_headers (email : Email.t) : list (string * string) :=
  [("Subject", Email.subject email);
   ("From", str_from (Email.from_addr email));
   ("To", Str.join ", " (map EmailAddress.str (Email.to email)))]
  ++ (match Email.cc email with
      | [] => []
      | _ :: _ => [("Cc", Str.join ", " (map EmailAddress.str (Email.cc email)))]
      end)
  ++ (match Email.reply_to email with
      | Some a => [("Reply-To", EmailAddress.str a)]
      | None => []
      end)
  ++ Email.headers email.

(** The two [MIMEText] alternatives of lines 119-122. *)
Definition build_bodies (email : Email.t) : list MIMEPart :=
  (match Email.body_text email with
   | EmptyString => []
   | String _ _ => [MIMEText (Email.body_text email) "plain"]
   end)
  ++ (match Email.body_html email with
      | EmptyString => []
      | String _ _ => [MIMEText (Email.body_html email) "html"]
      end).

(** One attachment part (lines 125-128).  [MIMEBase] takes exactly a main
    type and a subtype, so a content type without exactly one slash makes
    the call raise [TypeError]. *)
Definition build_attachment (a : Attachment.t) : Outcome MIMEPart :=
  match Str.split "/"%char (Attachment.content_type a) with
  | [maintype; subtype] =>
      Return (MIMEBase maintype subtype (Attachment.content a)
                       ("attachment; filename=" +:+ Attachment.filename a))
  | [_] => Raise "MIMEBase.__init__() missing 1 required positional argument: '_subtype'"
  | parts =>
      Raise ("MIMEBase.__init__() takes 3 positional arguments but "
             +:+ pretty (S (List.length parts)) +:+ " were given")
  end.

(** The attachment loop of lines 124-129; the first failing attachment
    ends it. *)
Fixpoint build_attachments (l : list Attachment.t) : Outcome (list MIMEPart) :=
  match l with
  | [] => Return []
  | a :: l' =>
      match build_attachment a with
      | Raise e => Raise e
      | Return p =>
          match build_attachments l' with
          | Raise e => Raise e
          | Return ps => Return (p :: ps)
          end
      end
  end.

(** Lines 106-129. *)
Definition build_message (email : Email.t) : Outcome MIMEMultipart :=
  match build_attachments (Email.attachments email) with
  | Raise e => Raise e
  | Return ps =>
      Return (mkMIME "alternative" (build_headers email) (build_bodies email ++ ps))
  end.

(** Line 138. *)
Definition recipients (email : Email.t) : list string :=
  map EmailAddress.email (Email.to email ++ Email.cc email ++ Email.bcc email).

(** The body of the [with smtplib.SMTP(...)] block, lines 132-139: the
    wire after the session and the exception that ended it, if any. *)
Definition session (self : t) (email : Email.t) (msg : MIMEMultipart)
  : Smtplib * option string :=
  let w := wire self in
  match smtp_connect w (host self) (port self) with
  | Some e => (w, Some e)
  | None =>
      match (if use_tls self then smtp_starttls w else None) with
      | Some e => (w, Some e)
      | None =>
          match (match username self with
                 | EmptyString => None
                 | String _ _ => smtp_login w (username self) (password self)
                 end) with
          | Some e => (w, Some e)
          | None =>
              let recipients := recipients email in
              match Email.from_addr email with
              | None => (w, Some "'NoneType' object has no attribute 'email'")
              | Some from_addr =>
                  let env := mkEnvelope (EmailAddress.email from_addr) recipients msg in
                  (smtp_submit env w, smtp_sendmail w env)
              end
          end
      end
  end.

(** [SMTPTransport.send] *)
Definition send (self : t) (email : Email.t) : t * list LogRecord * Outcome bool :=
  match build_message email with
  | Raise e => (self, [], Raise e)
  | Return msg =>
      match session self email msg with
      | (w, None) => (set_wire w self, [], Return true)
      | (w, Some e) => (set_wire w self, [Log_smtp_error e], Raise e)
      end
  end.
End SMTPTransport.

#[global] Instance SMTPTransport_Transport : Transport SMTPTransport.t :=
  fun self _ email => SMTPTransport.send self email.

Module MockTransport.
Record t : Type := mk {
  sent_emails : list loc     (* references to the captured Email objects *)
}.

(** [MockTransport()] *)
Definition init : t := mk [].

(** [MockTransport.send] *)
Definition send (self : t) (email : loc) (seen : Email.t)
  : t * list LogRecord * Outcome bool :=
  (mk (sent_emails self ++ [email]),
   [Log_mock_sending (map EmailAddress.str (Email.to seen))],
   Return true).
End MockTransport.

#[global] Instance MockTransport_Transport : Transport MockTransport.t :=
  MockTransport.send.

(** ** Arguments of [Mailer.send] *)

(** An element of [to]: a bare string or an address object. *)
Inductive ToItem : Type :=
| ToStr (addr : string)
| ToAddr (addr : EmailAddress.t).

(** The keyword arguments that [send] forwards to the [Email] constructor,
    each absent ([None]) or present.  These are the keywords the
    constructor accepts: [id], [tracking_id] (passed twice) or an unknown
    keyword make Python reject the call with [TypeError], and are not
    argument sets of [send]. *)
Module Kwargs.
Record t : Type := mk {
  from_addr : option (option EmailAddress.t);
  reply_to : option (option EmailAddress.t);
  cc : option (list EmailAddress.t);
  bcc : option (list EmailAddress.t);
  attachments : option (list Attachment.t);
  headers : option (list (string * string));
  status : option EmailStatus;
  created_at : option datetime;
  sent_at : option (option datetime);
  error : option (option string);
  metadata : option (list (string * PyVal))
}.

(** No keyword argument. *)
Definition empty : t :=
  mk None None None None None None None None None None None.
End Kwargs.

(** One argument set of [send], as [send_bulk] receives them. *)
Module SendArgs.
Record t : Type := mk {
  to : list ToItem;
  subject : string;
  body_text : string;     (* default: the empty string *)
  body_html : string;     (* default: the empty string *)
  kwargs : Kwargs.t
}.
End SendArgs.

(** ** Mailer *)

Module Mailer.
Section WithTransport.
Context {T : Type} `{!Transport T}.

Record t : Type := mk {
  transport : T;
  default_from : EmailAddress.t;
  templates : gmap string EmailTemplate.t;
  sent_emails : gmap string loc;
  hooks : gmap string (list Handler)
}.

(** [Mailer(transport, default_from)] with a transport given. *)
Definition init (transport : T) (default_from : option EmailAddress.t) : t :=
  mk transport
     (default (EmailAddress.mk "noreply@example.com" EmptyString) default_from)
     ∅ ∅
     (<["before_send" := []]> (<["after_send" := []]> (<["on_error" := []]> ∅))).

(** The mailer together with everything else a call can touch. *)
Record State : Type := mkState {
  self : t;
  world : World
}.

(** Computations over [State] that return or raise. *)
Definition M (A : Type) : Type := State -> Outcome A * State.

Definition ret {A} (a : A) : M A := fun s => (Return a, s).

Definition bind {A B} (m : M A) (k : A -> M B) : M B :=
  fun s =>
    match m s with
    | (Return a, s') => k a s'
    | (Raise e, s') => (Raise e, s')
    end.

(** [try: m  except Exception as e: handler(e)] *)
Definition try_except {A} (m : M A) (handler : string -> M A) : M A :=
  fun s =>
    match m s with
    | (Return a, s') => (Return a, s')
    | (Raise e, s') => handler e s'
    end.

Definition raise {A} (e : string) : M A := fun s => (Raise e, s).

(** [for x in xs: body(x)] *)
Fixpoint for_each {A} (xs : list A) (body : A -> M unit) : M unit :=
  match xs with
  | [] => ret tt
  | x :: xs' => bind (body x) (fun _ => for_each xs' body)
  end.

Definition get : M State := fun s => (Return s, s).
Definition modify_self (f : t -> t) : M unit :=
  fun s => (Return tt, mkState (f (self s)) (world s)).
Definition modify_world (f : World -> World) : M unit :=
  fun s => (Return tt, mkState (self s) (f (world s))).

Notation "'let*' x := m 'in' k" := (bind m (fun x => k))
  (at level 10, x name, m at level 100, k at level 200, only parsing).

(** *** Primitive effects *)

Definition set_heap (h : list Email.t) (w : World) : World :=
  mkWorld h (uuid4 w) (uuid_calls w) (now w) (now_calls w) (log w) (trace w).
Definition set_uuid_calls (n : nat) (w : World) : World :=
  mkWorld (heap w) (uuid4 w) n (now w) (now_calls w) (log w) (trace w).
Definition set_now_calls (n : nat) (w : World) : World :=
  mkWorld (heap w) (uuid4 w) (uuid_calls w) (now w) n (log w) (trace w).
Definition set_log (l : list LogRecord) (w : World) : World :=
  mkWorld (heap w) (uuid4 w) (uuid_calls w) (now w) (now_calls w) l (trace w).
Definition set_trace (tr : list Event) (w : World) : World :=
  mkWorld (heap w) (uuid4 w) (uuid_calls w) (now w) (now_calls w) (log w) tr.

Definition set_transport (x : T) (m : t) : t :=
  mk x (default_from m) (templates m) (sent_emails m) (hooks m).
Definition set_templates (x : gmap string EmailTemplate.t) (m : t) : t :=
  mk (transport m) (default_from m) x (sent_emails m) (hooks m).
Definition set_sent_emails (x : gmap string loc) (m : t) : t :=
  mk (transport m) (default_from m) (templates m) x (hooks m).
Definition set_hooks (x : gmap string (list Handler)) (m : t) : t :=
  mk (transport m) (default_from m) (templates m) (sent_emails m) x.

(** [str(uuid.uuid4())] *)
Definition uuid_uuid4 : M string :=
  fun s =>
    let w := world s in
    (Return (uuid4 w (uuid_calls w)),
     mkState (self s) (set_uuid_calls (S (uuid_calls w)) w)).

(** [datetime.now()] *)
Definition datetime_now : M datetime :=
  fun s =>
    let w := world s in
    (Return (now w (now_calls w)),
     mkState (self s) (set_now_calls (S (now_calls w)) w)).

(** [logger.info(...)], [logger.error(...)] *)
Definition logger (records : list LogRecord) : M unit :=
  modify_world (fun w => set_log (log w ++ records) w).

Definition observe (ev : Event) : M unit :=
  modify_world (fun w => set_trace (trace w ++ [ev]) w).

(** A new [Email] object; the reference to it. *)
Definition new_email (value : Email.t) : M loc :=
  fun s =>
    let w := world s in
    (Return (List.length (heap w)),
     mkState (self s) (set_heap (heap w ++ [value]) w)).

(** Reading through a reference.  Every reference the mailer holds comes
    from [new_email], so the error case is never reached. *)
Definition deref (email : loc) : M Email.t :=
  fun s =>
    match heap (world s) !! email with
    | Some value => (Return value, s)
    | None => (Raise "dangling reference", s)
    end.

(** Attribute assignment on the object behind [email]. *)
Definition assign (email : loc) (f : Email.t -> Email.t) : M unit :=
  modify_world (fun w => set_heap (alter f email (heap w)) w).

(** *** Methods *)

(** [add_hook(self, event, handler)] *)
Definition add_hook (event : string) (handler : Handler) : M unit :=
  let* s := get in
  match hooks (self s) !! event with
  | Some handlers =>
      modify_self (fun m => set_hooks (<[event := handlers ++ [handler]]> (hooks m)) m)
  | None => ret tt
  end.

(** [handler(email)]: the hook works on the object behind the reference. *)
Definition call_handler (event : string) (handler : Handler) (email : loc) : M unit :=
  let* seen := deref email in
  let* _ := observe (HookCall event handler email seen) in
  let '(after, raised) := handler seen in
  let* _ := assign email (fun _ => after) in
  match raised with
  | None => ret tt
  | Some e => raise e
  end.

(** [_emit(self, event, email)] *)
Definition _emit (event : string) (email : loc) : M unit :=
  let* s := get in
  for_each (default [] (hooks (self s) !! event))
    (fun handler =>
       try_except (call_handler event handler email)
                  (fun e => logger [Log_hook_error e])).

(** [register_template(self, template)] *)
Definition register_template (template : EmailTemplate.t) : M unit :=
  modify_self (fun m =>
    set_templates (<[EmailTemplate.id template := template]> (templates m)) m).

(** [EmailAddress(email=addr) if isinstance(addr, str) else addr] *)
Definition normalize (addr : ToItem) : EmailAddress.t :=
  match addr with
  | ToStr addr => EmailAddress.mk addr EmptyString
  | ToAddr addr => addr
  end.

(** The [Email(...)] call of lines 183-192, once its arguments are
    evaluated: fields not given by a keyword take their defaults;
    [created] is what the [created_at] default factory returned. *)
Definition construct (id : string) (recipients : list EmailAddress.t)
    (subject body_text body_html : string) (from_addr : option EmailAddress.t)
    (tracking_id : string) (kw : Kwargs.t) (created : datetime) : Email.t :=
  Email.mk id recipients subject body_text body_html from_addr
    (default None (Kwargs.reply_to kw))
    (default [] (Kwargs.cc kw))
    (default [] (Kwargs.bcc kw))
    (default [] (Kwargs.attachments kw))
    (default [] (Kwargs.headers kw))
    (default PENDING (Kwargs.status kw))
    created
    (default None (Kwargs.sent_at kw))
    (default None (Kwargs.error kw))
    (Some tracking_id)
    (default [] (Kwargs.metadata kw)).

(** [self.transport.send(email)] *)
Definition call_transport (email : loc) : M bool :=
  let* seen := deref email in
  let* s := get in
  let '(transport', records, result) := transport_send (transport (self s)) email seen in
  let* _ := modify_self (set_transport transport') in
  let* _ := logger records in
  let* _ := observe (TransportCall email seen result) in
  match result with
  | Return b => ret b
  | Raise e => raise e
  end.

(** [send(self, to, subject, body_text, body_html, **kwargs)] *)
Definition send (args : SendArgs.t) : M loc :=
  let kw := SendArgs.kwargs args in
  let recipients := map normalize (SendArgs.to args) in
  let* s := get in
  let* id := uuid_uuid4 in
  let from_addr := default (Some (default_from (self s))) (Kwargs.from_addr kw) in
  let* tracking_id := uuid_uuid4 in
  let* created := match Kwargs.created_at kw with
                   | Some d => ret d
                   | None => datetime_now
                   end in
  let value := construct (Str.take 12 id) recipients (SendArgs.subject args)
                 (SendArgs.body_text args) (SendArgs.body_html args) from_addr
                 (Str.take 8 tracking_id) kw created in
  let* email := new_email value in
  let* _ := observe (Created email value) in
  let* _ := _emit "before_send" email in
  let* _ := assign email (Email.set_status SENDING) in
  let* _ :=
    try_except
      (let* _ := call_transport email in
       let* _ := assign email (Email.set_status SENT) in
       let* d := datetime_now in
       let* _ := assign email (Email.set_sent_at (Some d)) in
       _emit "after_send" email)
      (fun e =>
         let* _ := assign email (Email.set_status FAILED) in
         let* _ := assign email (Email.set_error (Some e)) in
         _emit "on_error" email) in
  let* stored := deref email in
  let* _ := modify_self (fun m => set_sent_emails (<[Email.id stored := email]> (sent_emails m)) m) in
  ret email.

(** [send_template(self, template_id, to, context, **kwargs)] *)
Definition send_template (template_id : string) (to : list ToItem)
    (context : option (list (string * PyVal))) (kw : Kwargs.t) : M (option loc) :=
  let* s := get in
  match templates (self s) !! template_id with
  | None =>
      let* _ := logger [Log_template_not_found template_id] in
      ret None
  | Some template =>
      let '(subject, body_text, body_html) :=
        EmailTemplate.render template (default [] context) in
      let* email := send (SendArgs.mk to subject body_text body_html kw) in
      ret (Some email)
  end.

(** [send_bulk(self, emails)] *)
Definition send_bulk (emails : list SendArgs.t) : M (list loc) :=
  fold_left
    (fun (loop : M (list loc)) email_data =>
       let* results := loop in
       let* result := send email_data in
       ret (results ++ [result]))
    emails (ret []).

(** [get_email(self, email_id)] *)
Definition get_email (email_id : string) : M (option loc) :=
  let* s := get in
  ret (sent_emails (self s) !! email_id).

(** [len([e for e in emails if e.status == status])] *)
Definition count_status (h : list Email.t) (emails : list loc) (status : EmailStatus) : nat :=
  List.length (filter (fun email => Email.status <$> h !! email = Some status) emails).

(** [stats(self)] *)
Definition stats : M (gmap string nat) :=
  let* s := get in
  let h := heap (world s) in
  let emails := (map_to_list (sent_emails (self s))).*2 in
  ret (<["total" := List.length emails]>
       (<["sent" := count_status h emails SENT]>
        (<["failed" := count_status h emails FAILED]>
         (<["pending" := count_status h emails PENDING]> ∅)))).

End WithTransport.
End Mailer.

(** [Mailer()] and [Mailer(default_from=...)]: without a transport the
    mailer makes itself a [MockTransport]. *)
Definition Mailer_default (default_from : option EmailAddress.t)
  : Mailer.t (T := MockTransport.t) :=
  Mailer.init MockTransport.init default_from.

(** ** One [send] call in closed form

    The definitions of this section describe, without the monad, what the
    hooks of one event and one whole [send] call do.  They are related to
    the methods above by [emit_closed] and [send_closed]. *)

Section Closed.
Context {T : Type} `{!Transport T}.

(** The hooks [hs] of [event] run in order on the object behind [email]:
    the message as the last hook leaves it, the log records of the hooks
    that raised, and the calls made. *)
Fixpoint hooks_run (event : string) (email : loc) (hs : list Handler) (seen : Email.t)
  : Email.t * list LogRecord * list Event :=
  match hs with
  | [] => (seen, [], [])
  | h :: hs' =>
      let '(final, records, calls) := hooks_run event email hs' (h seen).1 in
      (final,
       match (h seen).2 with
       | Some e => Log_hook_error e :: records
       | None => records
       end,
       HookCall event h email seen :: calls)
  end.

(** The handlers registered for [event]. *)
Definition handlers_of (m : Mailer.t (T := T)) (event : string) : list Handler :=
  default [] (Mailer.hooks m !! event).

(** The stages of one [send] call. *)
Record SendRun : Type := mkSendRun {
  run_email : loc;               (* the reference of the new object *)
  run_created : Email.t;         (* as constructed *)
  run_before : Email.t * list LogRecord * list Event;   (* before_send hooks *)
  run_seen : Email.t;            (* as handed to the transport *)
  run_transport : T * list LogRecord * Outcome bool;
  run_now_calls : nat;           (* clock reads before the transport returns *)
  run_resolved : Email.t;        (* after the assignments of the taken branch *)
  run_after : Email.t * list LogRecord * list Event     (* after_send or on_error hooks *)
}.

Definition send_run (args : SendArgs.t) (s : Mailer.State (T := T)) : SendRun :=
  let m := Mailer.self s in
  let w := Mailer.world s in
  let kw := SendArgs.kwargs args in
  let email := List.length (heap w) in
  let now_calls' :=
    match Kwargs.created_at kw with
    | Some _ => now_calls w
    | None => S (now_calls w)
    end in
  let created :=
    Mailer.construct
      (Str.take 12 (uuid4 w (uuid_calls w)))
      (map Mailer.normalize (SendArgs.to args))
      (SendArgs.subject args) (SendArgs.body_text args) (SendArgs.body_html args)
      (default (Some (Mailer.default_from m)) (Kwargs.from_addr kw))
      (Str.take 8 (uuid4 w (S (uuid_calls w))))
      kw
      (default (now w (now_calls w)) (Kwargs.created_at kw)) in
  let before := hooks_run "before_send" email (handlers_of m "before_send") created in
  let seen := Email.set_status SENDING before.1.1 in
  let tr := transport_send (Mailer.transport m) email seen in
  let resolved :=
    match tr.2 with
    | Return _ => Email.set_sent_at (Some (now w now_calls')) (Email.set_status SENT seen)
    | Raise e => Email.set_error (Some e) (Email.set_status FAILED seen)
    end in
  let after :=
    match tr.2 with
    | Return _ => hooks_run "after_send" email (handlers_of m "after_send") resolved
    | Raise _ => hooks_run "on_error" email (handlers_of m "on_error") resolved
    end in
  mkSendRun email created before seen tr now_calls' resolved after.

(** The state a [send] call leaves behind. *)
Definition send_state (args : SendArgs.t) (s : Mailer.State (T := T))
  : Mailer.State (T := T) :=
  let r := send_run args s in
  let m := Mailer.self s in
  let w := Mailer.world s in
  Mailer.mkState
    (Mailer.mk (run_transport r).1.1 (Mailer.default_from m) (Mailer.templates m)
       (<[Email.id (run_after r).1.1 := run_email r]> (Mailer.sent_emails m))
       (Mailer.hooks m))
    (mkWorld
       (heap w ++ [(run_after r).1.1])
       (uuid4 w) (S (S (uuid_calls w)))
       (now w)
       (match (run_transport r).2 with
        | Return _ => S (run_now_calls r)
        | Raise _ => run_now_calls r
        end)
       (log w ++ (run_before r).1.2 ++ (run_transport r).1.2 ++ (run_after r).1.2)
       (trace w ++ [Created (run_email r) (run_created r)] ++ (run_before r).2
          ++ [TransportCall (run_email r) (run_seen r) (run_transport r).2]
          ++ (run_after r).2)).

End Closed.

(** ** What the claims about rendering speak of *)

(** [sub] occurs in [s] at offset [i]. *)
Definition occurs_at (sub s : string) (i : nat) : Prop :=
  exists a b, s = a +:+ sub +:+ b /\ String.length a = i.

Definition occurs (sub s : string) : Prop := exists i, occurs_at sub s i.

(** [replaced old new s s']: [s'] is [s] with every occurrence of [old]
    replaced by [new], the occurrences being taken from the left and not
    overlapping. *)
Inductive replaced (old new : string) : string -> string -> Prop :=
| replaced_none s :
    ~ occurs old s ->
    replaced old new s s
| replaced_first a b b' :
    (forall i, occurs_at old (a +:+ old +:+ b) i -> String.length a <= i) ->
    replaced old new b b' ->
    replaced old new (a +:+ old +:+ b) (a +:+ new +:+ b').

(** [substituted context s s']: [s'] is [s] after the keys of [context],
    taken in insertion order, have each had every literal occurrence of
    their placeholder replaced by the stringified value. *)
Inductive substituted : list (string * PyVal) -> string -> string -> Prop :=
| substituted_nil s : substituted [] s s
| substituted_cons key value context s s1 s2 :
    replaced (EmailTemplate.placeholder key) (py_str value) s s1 ->
    substituted context s1 s2 ->
    substituted ((key, value) :: context) s s2.

(** [s] contains a placeholder token: two opening braces, any text, two
    closing braces. *)
Definition has_token (s : string) : Prop :=
  exists key, occurs (EmailTemplate.placeholder key) s.

(** The same, computed: the leftmost pair of opening braces is followed,
    after it, by a pair of closing braces. *)
Definition has_tokenb (s : string) : bool :=
  match Str.find s "{{" with
  | Some i => Str.contains (Str.drop (i + 2) s) "}}"
  | None => false
  end.

(** The template of the rendering example and its context. *)
Definition welcome_template : EmailTemplate.t :=
  EmailTemplate.mk "welcome" "Welcome Email" "Welcome {{name}} to {{app_name}}"
    "Hi {{name}}" "<h1>Hi {{name}}</h1>" [].

Definition welcome_context : list (string * PyVal) :=
  [("name", VStr "Bob"); ("app_name", VStr "X")].

(** A template without placeholders. *)
Definition plain_template : EmailTemplate.t :=
  EmailTemplate.mk "notice" "Notice" "Service notice" "Braces {like} these }} {"
    "<p>Maintenance tonight</p>" [].

(** One text after the loop of [render]. *)
Definition substitute (context : list (string * PyVal)) (s : string) : string :=
  fold_left
    (fun s item => Str.replace s (EmailTemplate.placeholder item.1) (py_str item.2))
    context s.

(** ** What the claim about the SMTP envelope speaks of *)

(** The envelopes that one [SMTPTransport.send] call hands to [sendmail]. *)
Definition submitted_by (self : SMTPTransport.t) (email : Email.t) : list Envelope :=
  drop (List.length (smtp_submitted (SMTPTransport.wire self)))
       (smtp_submitted (SMTPTransport.wire (SMTPTransport.send self email).1.1)).

(** The recipient list as a union: every address of [to], [cc] and [bcc],
    and each of them once. *)
Definition recipients_union_once (self : SMTPTransport.t) (email : Email.t) : Prop :=
  forall env, env ∈ submitted_by self email ->
    NoDup (env_rcpt env) /\
    forall addr,
      addr ∈ env_rcpt env <->
      addr ∈ map EmailAddress.email (Email.to email) \/
      addr ∈ map EmailAddress.email (Email.cc email) \/
      addr ∈ map EmailAddress.email (Email.bcc email).

(** A server that accepts everything, and a transport to it. *)
Definition accepting_wire : Smtplib :=
  mkSmtplib (fun _ _ => None) None (fun _ _ => None) (fun _ => None) [].

Definition example_smtp : SMTPTransport.t :=
  SMTPTransport.mk "smtp.example.com" 587 "mailer" "secret" true accepting_wire.

Definition alice : EmailAddress.t := EmailAddress.mk "alice@example.com" "Alice".
Definition bob : EmailAddress.t := EmailAddress.mk "bob@example.com" "".
Definition noreply : EmailAddress.t := EmailAddress.mk "noreply@example.com" "".

(** A message that names alice both in [to] and in [cc]. *)
Definition email_to_alice_twice : Email.t :=
  Email.mk "3f2b8c1e-4a7" [alice] "Monthly Report" "Please find the report attached." ""
    (Some noreply) None [alice] [bob] [] [] SENDING 0%Z None None (Some "9d0e1f2a") [].

(** ** Calls on a mailer *)

Section Calls.
Context {T : Type} `{!Transport T}.

(** The synchronous methods of [Mailer]. *)
Inductive Call : Type :=
| Call_add_hook (event : string) (handler : Handler)
| Call_register_template (template : EmailTemplate.t)
| Call_send (args : SendArgs.t)
| Call_send_template (template_id : string) (to : list ToItem)
                     (context : option (list (string * PyVal))) (kw : Kwargs.t)
| Call_send_bulk (emails : list SendArgs.t)
| Call_get_email (email_id : string)
| Call_stats.

(** The state after one call; what the call returned is dropped. *)
Definition run_call (c : Call) (s : Mailer.State (T := T)) : Mailer.State (T := T) :=
  match c with
  | Call_add_hook event handler => (Mailer.add_hook event handler s).2
  | Call_register_template template => (Mailer.register_template template s).2
  | Call_send args => (Mailer.send args s).2
  | Call_send_template template_id to context kw =>
      (Mailer.send_template template_id to context kw s).2
  | Call_send_bulk emails => (Mailer.send_bulk emails s).2
  | Call_get_email email_id => (Mailer.get_email email_id s).2
  | Call_stats => (Mailer.stats s).2
  end.

Definition run_calls (calls : list Call) (s : Mailer.State (T := T))
  : Mailer.State (T := T) :=
  fold_left (fun s c => run_call c s) calls s.

(** A mailer as its constructor leaves it, in any world. *)
Definition constructed (s : Mailer.State (T := T)) : Prop :=
  exists transport default_from, Mailer.self s = Mailer.init transport default_from.

(** A mailer that was constructed and then used through its methods. *)
Definition reachable (s : Mailer.State (T := T)) : Prop :=
  exists s0 calls, constructed s0 /\ s = run_calls calls s0.

(** The events recorded between two states of a run. *)
Definition events_since (s s' : Mailer.State (T := T)) : list Event :=
  drop (List.length (trace (Mailer.world s))) (trace (Mailer.world s')).

(** The state after a list of [send] calls, one after the other. *)
Definition sends_state (emails : list SendArgs.t) (s : Mailer.State (T := T))
  : Mailer.State (T := T) :=
  fold_left (fun s args => send_state args s) emails s.

End Calls.

(** The calls, with the objects they were made on, of the hooks of [event]. *)
Definition hook_calls_of (event : string) (events : list Event)
  : list (Handler * loc * Email.t) :=
  omap (fun ev =>
          match ev with
          | HookCall event' handler email seen =>
              if decide (event' = event) then Some (handler, email, seen) else None
          | _ => None
          end) events.

(** The transport calls with their results. *)
Definition transport_calls_of (events : list Event) : list (loc * Outcome bool) :=
  omap (fun ev =>
          match ev with
          | TransportCall email _ result => Some (email, result)
          | _ => None
          end) events.

(** The objects created, as constructed. *)
Definition created_of (events : list Event) : list (loc * Email.t) :=
  omap (fun ev =>
          match ev with
          | Created email value => Some (email, value)
          | _ => None
          end) events.

Definition is_return {A} (r : Outcome A) : bool :=
  match r with Return _ => true | Raise _ => false end.

(** A state of the world to start examples from: no objects yet, a clock
    that ticks from 1000 and UUIDs that differ in their first characters. *)
Definition example_uuid4 (n : nat) : string :=
  pretty n +:+ "c9a1e7-52b4-4d0e-9f3a-6b1d2c8e7f00".

Definition example_world : World :=
  mkWorld [] example_uuid4 0 (fun n => (1000 + Z.of_nat n)%Z) 0 [] [].

(** [Mailer()] in that world. *)
Definition example_mailer : Mailer.State (T := MockTransport.t) :=
  Mailer.mkState (Mailer_default None) example_world.

(** [to=["a@example.com"], subject="S", body_text="T"] *)
Definition example_args : SendArgs.t :=
  SendArgs.mk [ToStr "a@example.com"] "S" "T" "" Kwargs.empty.

(** The three events a mailer has hook lists for. *)
Definition hook_events : gset string :=
  {[ "before_send"; "after_send"; "on_error" ]}.

(** ** What the claims about hooks and the lifecycle speak of *)


(** A hook that also leaves [created_at] alone. *)
Definition keeps_lifecycle (h : Handler) : Prop :=
  forall e, Email.status (h e).1 = Email.status e /\
            Email.sent_at (h e).1 = Email.sent_at e /\
            Email.created_at (h e).1 = Email.created_at e.


(** A hook that marks the message opened. *)
Definition hook_mark_opened : Handler := fun e => (Email.set_status OPENED e, None).

(** A hook that raises. *)
Definition hook_raising : Handler := fun e => (e, Some "boom").

Section Claims.
Context {T : Type} `{!Transport T}.


End Claims.

(** The handlers of the three events all satisfy [P]. *)
Definition hooks_satisfy {T : Type} (P : Handler -> Prop) (m : Mailer.t (T := T)) : Prop :=
  Forall P (handlers_of m "before_send") /\
  Forall P (handlers_of m "after_send") /\
  Forall P (handlers_of m "on_error").

(** No keyword argument presets [status], [created_at] or [sent_at]. *)
Definition no_lifecycle_presets (kw : Kwargs.t) : Prop :=
  Kwargs.status kw = None /\ Kwargs.created_at kw = None /\ Kwargs.sent_at kw = None.

(** [datetime.now()] never runs backwards. *)
Definition clock_monotone (w : World) : Prop :=
  forall i j, i <= j -> (now w i <= now w j)%Z.

Section LifecycleClaim.
Context {T : Type} `{!Transport T}.

(** C2 as stated, for the message of one [send] call: pending when
    created, sending when handed to the transport, sent or failed when
    [send] returns and never changed by a later call, with createdAt no
    later than sentAt when sentAt is set. *)
Definition lifecycle_claim (s : Mailer.State (T := T)) (args : SendArgs.t) : Prop :=
  exists email s' created seen result final,
    Mailer.send args s = (Return email, s') /\
    (email, created) ∈ created_of (events_since s s') /\
    Email.status created = PENDING /\
    TransportCall email seen result ∈ events_since s s' /\
    Email.status seen = SENDING /\
    heap (Mailer.world s') !! email = Some final /\
    (Email.status final = SENT \/ Email.status final = FAILED) /\
    (forall calls, heap (Mailer.world (run_calls calls s')) !! email = Some final) /\
    (forall d, Email.sent_at final = Some d -> (Email.created_at final <= d)%Z).

End LifecycleClaim.

(** [example_args] with [created_at] given, and later than the clock. *)
Definition postdated_args : SendArgs.t :=
  SendArgs.mk [ToStr "a@example.com"] "S" "T" ""
    (Kwargs.mk None None None None None None None (Some 5000%Z) None None None).

(** The message [created] was built from the argument set [args]. *)
Definition built_from (args : SendArgs.t) (created : Email.t) : Prop :=
  Email.to created = map Mailer.normalize (SendArgs.to args) /\
  Email.subject created = SendArgs.subject args /\
  Email.body_text created = SendArgs.body_text args /\
  Email.body_html created = SendArgs.body_html args.

(** A server that refuses every message addressed to the bounce address. *)
Definition picky_wire : Smtplib :=
  mkSmtplib (fun _ _ => None) None (fun _ _ => None)
    (fun env =>
       if bool_decide ("bounce@example.com" ∈ env_rcpt env)
       then Some "{'bounce@example.com': (550, b'User unknown')}"
       else None)
    [].

(** A mailer that sends through it. *)
Definition smtp_mailer : Mailer.State (T := SMTPTransport.t) :=
  Mailer.mkState
    (Mailer.init (SMTPTransport.mk "smtp.example.com" 587 "" "" true picky_wire) None)
    example_world.

Definition args_to (addr : string) : SendArgs.t :=
  SendArgs.mk [ToStr addr] "S" "T" "" Kwargs.empty.

(** Three entries, the second of which the server refuses. *)
Definition example_bulk : list SendArgs.t :=
  [args_to "a@example.com"; args_to "bounce@example.com"; args_to "c@example.com"].

(** ** What the claim about [stats] speaks of *)



(** The status [send] assigns for a result of the transport. *)
Definition outcome_status (result : Outcome bool) : EmailStatus :=
  match result with
  | Return _ => SENT
  | Raise _ => FAILED
  end.

(** The number of sends among [events] whose transport call returned, and
    the number of those whose transport call raised. *)
Definition succeeded (events : list Event) : nat :=
  List.length (filter (fun call => outcome_status call.2 = SENT) (transport_calls_of events)).

Definition failed (events : list Event) : nat :=
  List.length (filter (fun call => outcome_status call.2 = FAILED) (transport_calls_of events)).

Section StatsClaim.
Context {T : Type} `{!Transport T}.


(** C5 as stated, for a new mailer in state [s0] and the calls made on it
    since: [stats()] counts the sends that succeeded and those that failed,
    and nothing as pending. *)
Definition stats_claim (s0 : Mailer.State (T := T)) (calls : list Call) : Prop :=
  let s := run_calls calls s0 in
  let N := succeeded (events_since s0 s) in
  let M := failed (events_since s0 s) in
  exists st,
    (Mailer.stats s).1 = Return st /\
    st !! "total" = Some (N + M) /\
    st !! "sent" = Some N /\
    st !! "failed" = Some M /\
    st !! "pending" = Some 0.

End StatsClaim.

Section StatsInvariant.
Context {T : Type} `{!Transport T}.


End StatsInvariant.

(** A run on [smtp_mailer]: a hook on on_error, a bulk send with one
    refused entry, and a send of an unregistered template. *)
Definition example_calls : list Call :=
  [Call_add_hook "on_error" hook_raising;
   Call_send_bulk example_bulk;
   Call_send_template "welcome" [ToStr "bob@example.com"] None Kwargs.empty].

(** A world whose clock runs backwards, and one whose UUIDs all start
    alike. *)
Definition backwards_world : World :=
  mkWorld [] example_uuid4 0 (fun n => (1000 - Z.of_nat n)%Z) 0 [] [].

Definition colliding_world : World :=
  mkWorld [] (fun n => "3f2b8c1e-4a7d-4c1b-9e0f-" +:+ pretty n) 0
          (fun n => (1000 + Z.of_nat n)%Z) 0 [] [].

(** ** EmailBuilder *)

(** The builder's lists are modelled by value.  In the source [build]
    hands the builder's own [_cc], [_bcc] and [_attachments] list objects
    to the caller; what a builder that is extended after [build] does to
    messages already built from it is outside the model. *)
Module EmailBuilder.
Record t : Type := mk {
  _to : list EmailAddress.t;
  _cc : list EmailAddress.t;
  _bcc : list EmailAddress.t;
  _subject : string;
  _body_text : string;
  _body_html : string;
  _attachments : list Attachment.t;
  _from : option EmailAddress.t;
  _reply_to : option EmailAddress.t
}.

(** [EmailBuilder()] *)
Definition init : t := mk [] [] [] EmptyString EmptyString EmptyString [] None None.

(** [EmailAddress(email=addr) for addr in addresses] *)
Definition addresses_of (addresses : list string) : list EmailAddress.t :=
  map (fun addr => EmailAddress.mk addr EmptyString) addresses.

(** [to(self, *addresses)] *)
Definition to (addresses : list string) (self : t) : t :=
  mk (_to self ++ addresses_of addresses) (_cc self) (_bcc self) (_subject self)
     (_body_text self) (_body_html self) (_attachments self) (_from self) (_reply_to self).

(** [cc(self, *addresses)] *)
Definition cc (addresses : list string) (self : t) : t :=
  mk (_to self) (_cc self ++ addresses_of addresses) (_bcc self) (_subject self)
     (_body_text self) (_body_html self) (_attachments self) (_from self) (_reply_to self).

(** [bcc(self, *addresses)] *)
Definition bcc (addresses : list string) (self : t) : t :=
  mk (_to self) (_cc self) (_bcc self ++ addresses_of addresses) (_subject self)
     (_body_text self) (_body_html self) (_attachments self) (_from self) (_reply_to self).

(** [from_address(self, email, name)] *)
Definition from_address (email name : string) (self : t) : t :=
  mk (_to self) (_cc self) (_bcc self) (_subject self) (_body_text self)
     (_body_html self) (_attachments self) (Some (EmailAddress.mk email name))
     (_reply_to self).

(** [reply_to(self, email, name)] *)
Definition reply_to (email name : string) (self : t) : t :=
  mk (_to self) (_cc self) (_bcc self) (_subject self) (_body_text self)
     (_body_html self) (_attachments self) (_from self)
     (Some (EmailAddress.mk email name)).

(** [subject(self, subject)] *)
Definition subject (subject : string) (self : t) : t :=
  mk (_to self) (_cc self) (_bcc self) subject (_body_text self) (_body_html self)
     (_attachments self) (_from self) (_reply_to self).

(** [text(self, body)] *)
Definition text (body : string) (self : t) : t :=
  mk (_to self) (_cc self) (_bcc self) (_subject self) body (_body_html self)
     (_attachments self) (_from self) (_reply_to self).

(** [html(self, body)] *)
Definition html (body : string) (self : t) : t :=
  mk (_to self) (_cc self) (_bcc self) (_subject self) (_body_text self) body
     (_attachments self) (_from self) (_reply_to self).

(** [attach(self, filename, content, content_type)] *)
Definition attach (filename : string) (content : list Byte.byte) (content_type : string)
    (self : t) : t :=
  mk (_to self) (_cc self) (_bcc self) (_subject self) (_body_text self)
     (_body_html self) (_attachments self ++ [Attachment.mk filename content content_type])
     (_from self) (_reply_to self).

(** [build(self)]: the dict that [send] receives as keyword arguments; the keys
    [cc], [bcc], [from_addr], [reply_to] and [attachments] are always
    present. *)
Definition build (self : t) : SendArgs.t :=
  SendArgs.mk (map (fun addr => ToStr (EmailAddress.email addr)) (_to self))
    (_subject self) (_body_text self) (_body_html self)
    (Kwargs.mk (Some (_from self)) (Some (_reply_to self)) (Some (_cc self))
               (Some (_bcc self)) (Some (_attachments self))
               None None None None None None).

(** The setter calls of a chain. *)
Inductive Step : Type :=
| Step_to (addresses : list string)
| Step_cc (addresses : list string)
| Step_bcc (addresses : list string)
| Step_from_address (email name : string)
| Step_reply_to (email name : string)
| Step_subject (subject : string)
| Step_text (body : string)
| Step_html (body : string)
| Step_attach (filename : string) (content : list Byte.byte) (content_type : string).

Definition step (c : Step) (self : t) : t :=
  match c with
  | Step_to addresses => to addresses self
  | Step_cc addresses => cc addresses self
  | Step_bcc addresses => bcc addresses self
  | Step_from_address email name => from_address email name self
  | Step_reply_to email name => reply_to email name self
  | Step_subject s => subject s self
  | Step_text body => text body self
  | Step_html body => html body self
  | Step_attach filename content content_type => attach filename content content_type self
  end.

(** [EmailBuilder().m1(...).m2(...)...] *)
Definition chain (steps : list Step) : t := fold_left (fun self c => step c self) steps init.
End EmailBuilder.

(** ** What the further properties speak of *)


(** The log records of the hooks among [calls] that raised. *)
Definition hook_errors (calls : list (Handler * loc * Email.t)) : list LogRecord :=
  omap (fun call => Log_hook_error <$> (call.1.1 call.2).2) calls.

(** The number of occurrences of the character [c] in [s]. *)
Fixpoint count_char (c : Ascii.ascii) (s : string) : nat :=
  match s with
  | EmptyString => 0
  | String c' s' => (if Ascii.eqb c' c then 1 else 0) + count_char c s'
  end.

(** The addresses given to the [to] calls of a chain, in call order; and
    likewise for [cc], [bcc] and the attachments. *)
Definition steps_to (steps : list EmailBuilder.Step) : list string :=
  flat_map (fun c => match c with EmailBuilder.Step_to l => l | _ => [] end) steps.
Definition steps_cc (steps : list EmailBuilder.Step) : list string :=
  flat_map (fun c => match c with EmailBuilder.Step_cc l => l | _ => [] end) steps.
Definition steps_bcc (steps : list EmailBuilder.Step) : list string :=
  flat_map (fun c => match c with EmailBuilder.Step_bcc l => l | _ => [] end) steps.
Definition steps_attachments (steps : list EmailBuilder.Step) : list Attachment.t :=
  flat_map (fun c => match c with
                     | EmailBuilder.Step_attach f x ct => [Attachment.mk f x ct]
                     | _ => []
                     end) steps.

(** The argument of the last [subject] call of a chain, if there is one;
    and likewise for the other fields that a call overwrites. *)
Definition steps_subject (steps : list EmailBuilder.Step) : option string :=
  last (omap (fun c => match c with EmailBuilder.Step_subject s => Some s | _ => None end) steps).
Definition steps_text (steps : list EmailBuilder.Step) : option string :=
  last (omap (fun c => match c with EmailBuilder.Step_text s => Some s | _ => None end) steps).
Definition steps_html (steps : list EmailBuilder.Step) : option string :=
  last (omap (fun c => match c with EmailBuilder.Step_html s => Some s | _ => None end) steps).
Definition steps_from (steps : list EmailBuilder.Step) : option EmailAddress.t :=
  last (omap (fun c => match c with
                       | EmailBuilder.Step_from_address e n => Some (EmailAddress.mk e n)
                       | _ => None
                       end) steps).
Definition steps_reply_to (steps : list EmailBuilder.Step) : option EmailAddress.t :=
  last (omap (fun c => match c with
                       | EmailBuilder.Step_reply_to e n => Some (EmailAddress.mk e n)
                       | _ => None
                       end) steps).

(** The chain of [example_usage]. *)
Definition report_steps : list EmailBuilder.Step :=
  [EmailBuilder.Step_to ["charlie@example.com"];
   EmailBuilder.Step_cc ["manager@example.com"];
   EmailBuilder.Step_subject "Monthly Report";
   EmailBuilder.Step_text "Please find the report attached.";
   EmailBuilder.Step_html "<p>Please find the report attached.</p>";
   EmailBuilder.Step_attach "report.txt"
     (String.list_byte_of_string "Report content here") "text/plain"].

Section TableInvariant.
Context {T : Type} `{!Transport T}.

(** Every key of the message table leads to a live message, and to one
    whose id is the key. *)
Definition table_consistent (s : Mailer.State (T := T)) : Prop :=
  forall email_id email,
    Mailer.sent_emails (Mailer.self s) !! email_id = Some email ->
    exists message,
      heap (Mailer.world s) !! email = Some message /\ Email.id message = email_id.

End TableInvariant.

(** A message without sender, and one with an attachment whose content
    type has no subtype. *)
Definition email_without_sender : Email.t :=
  Email.mk "5a6b7c8d-9e0" [alice] "Hello" "Hi" "" None None [] [] [] [] SENDING 0%Z
    None None (Some "1b2c3d4e") [].

Definition email_with_bad_attachment : Email.t :=
  Email.mk "6b7c8d9e-0f1" [alice] "Hello" "Hi" "" (Some noreply) None [] []
    [Attachment.mk "notes.txt" [] "text/plain"; Attachment.mk "blob" [] "binary"]
    [] SENDING 0%Z None None (Some "2c3d4e5f") [].

(** * Properties *)

Example replace_ex1 : Str.replace "aaaa" "aa" "b" = "bb".
Proof. reflexivity. Qed.
Example replace_ex2 : Str.replace "abc" "" "-" = "-a-b-c-".
Proof. reflexivity. Qed.
Example replace_ex3 : Str.replace "xabab" "ab" "ba" = "xbaba".
Proof. reflexivity. Qed.
Example split_ex : Str.split "/" "text/plain" = ["text"; "plain"].
Proof. reflexivity. Qed.
Example py_str_ex : map py_str [VInt (-12); VBool true; VNone; VStr "a"] = ["-12"; "True"; "None"; "a"].
Proof. reflexivity. Qed.

Section MailerFacts.
Context {T : Type} `{!Transport T}.
Implicit Types (s : Mailer.State (T := T)) (email : loc) (h : list Email.t).

Lemma lookup_last_cell h0 (x : Email.t) : (h0 ++ [x]) !! List.length h0 = Some x.
Proof. by apply list_lookup_middle. Qed.

Lemma alter_last_cell (f : Email.t -> Email.t) h0 x :
  alter f (List.length h0) (h0 ++ [x]) = h0 ++ [f x].
Proof.
  replace (List.length h0) with (List.length h0 + 0) by lia.
  by rewrite alter_app_r.
Qed.

(** The loop of [_emit] over any list of handlers. *)
Lemma emit_loop_closed event email hs s h0 seen :
  heap (Mailer.world s) = h0 ++ [seen] ->
  email = List.length h0 ->
  Mailer.for_each hs
    (fun handler =>
       Mailer.try_except (Mailer.call_handler event handler email)
                         (fun e => Mailer.logger [Log_hook_error e])) s =
    let r := hooks_run event email hs seen in
    let w := Mailer.world s in
    (Return tt,
     Mailer.mkState (Mailer.self s)
       (mkWorld (h0 ++ [r.1.1]) (uuid4 w) (uuid_calls w) (now w) (now_calls w)
                (log w ++ r.1.2) (trace w ++ r.2))).
Proof.
  intros Hh ->. revert s seen Hh.
  induction hs as [|handler hs IH]; intros [m w] seen Hh; simpl in *.
  - destruct w; simpl in *; subst. by rewrite !app_nil_r.
  - unfold Mailer.bind at 1, Mailer.try_except, Mailer.call_handler.
    unfold Mailer.bind at 1, Mailer.deref. simpl.
    rewrite Hh, lookup_last_cell.
    destruct (handler seen) as [after raised] eqn:Hcall; simpl.
    unfold Mailer.bind, Mailer.observe, Mailer.assign, Mailer.modify_world; simpl.
    rewrite Hh, alter_last_cell.
    destruct raised as [e|]; simpl.
    + rewrite (IH _ after) by done. simpl.
      destruct (hooks_run event (List.length h0) hs after) as [[final records] calls].
      simpl. by rewrite <- !app_assoc.
    + rewrite (IH _ after) by done. simpl.
      destruct (hooks_run event (List.length h0) hs after) as [[final records] calls].
      simpl. by rewrite <- !app_assoc.
Qed.

Lemma emit_closed event email s h0 seen :
  heap (Mailer.world s) = h0 ++ [seen] ->
  email = List.length h0 ->
  Mailer._emit event email s =
    let r := hooks_run event email (handlers_of (Mailer.self s) event) seen in
    let w := Mailer.world s in
    (Return tt,
     Mailer.mkState (Mailer.self s)
       (mkWorld (h0 ++ [r.1.1]) (uuid4 w) (uuid_calls w) (now w) (now_calls w)
                (log w ++ r.1.2) (trace w ++ r.2))).
Proof.
  intros Hh He. unfold Mailer._emit, Mailer.bind at 1, Mailer.get.
  by apply emit_loop_closed.
Qed.

(** [send] always returns, and returns the reference it allocated; the
    state it leaves is [send_state]. *)
Lemma send_closed args s :
  Mailer.send args s =
    (Return (List.length (heap (Mailer.world s))), send_state args s).
Proof.
  destruct s as [m w]. unfold Mailer.send.
  unfold Mailer.bind at 1, Mailer.get.
  unfold Mailer.bind at 1, Mailer.uuid_uuid4. simpl.
  unfold Mailer.bind at 1. simpl.
  unfold Mailer.bind at 1.
  destruct w as [h0 u uc n nc lg tr].
  unfold send_state, send_run. simpl.
  destruct (Kwargs.created_at (SendArgs.kwargs args)) as [d|] eqn:Hc; simpl.
  all: match goal with |- context [Mailer.new_email ?v] => set (created := v) end.
  all: unfold Mailer.bind at 1, Mailer.new_email; simpl.
  all: unfold Mailer.bind at 1, Mailer.observe, Mailer.modify_world; simpl.
  all: unfold Mailer.bind at 1.
  all: erewrite emit_closed by (simpl; reflexivity).
  all: simpl.
  all: destruct (hooks_run "before_send" (List.length h0) (handlers_of m "before_send") created)
         as [[e1 r1] c1]; simpl.
  all: unfold Mailer.bind at 1, Mailer.assign, Mailer.modify_world; simpl.
  all: rewrite alter_last_cell.
  all: unfold Mailer.bind at 1, Mailer.try_except.
  all: unfold Mailer.bind at 1, Mailer.call_transport.
  all: unfold Mailer.bind at 1, Mailer.deref; simpl.
  all: rewrite lookup_last_cell.
  all: unfold Mailer.bind at 1, Mailer.get; simpl.
  all: destruct (transport_send (Mailer.transport m) (List.length h0) (Email.set_status SENDING e1))
         as [[tr' recs] [b|err]]; simpl.
  all: unfold Mailer.bind, Mailer.modify_self, Mailer.logger, Mailer.observe,
         Mailer.modify_world, Mailer.ret, Mailer.raise, Mailer.assign,
         Mailer.datetime_now; simpl.
  all: rewrite ?alter_last_cell.
  all: erewrite emit_closed by (simpl; reflexivity).
  all: simpl.
  all: unfold Mailer.deref; simpl; rewrite lookup_last_cell.
  all: unfold Mailer.set_sent_emails; simpl.
  all: rewrite <- ?app_assoc; simpl.
  all: reflexivity.
Qed.

End MailerFacts.

(** ** Strings *)

Section StrFacts.
Implicit Types (s a b p old new sub : string).

Lemma str_app_nil_l s : "" +:+ s = s.
Proof. reflexivity. Qed.

Lemma str_app_cons c a b : String c a +:+ b = String c (a +:+ b).
Proof. reflexivity. Qed.

Lemma str_app_nil_r s : s +:+ "" = s.
Proof. induction s; rewrite ?str_app_nil_l, ?str_app_cons; congruence. Qed.

Lemma str_app_assoc a b c : (a +:+ b) +:+ c = a +:+ b +:+ c.
Proof. induction a; rewrite ?str_app_nil_l, ?str_app_cons; congruence. Qed.

Lemma str_length_app a b : String.length (a +:+ b) = String.length a + String.length b.
Proof. induction a; rewrite ?str_app_nil_l, ?str_app_cons; simpl; congruence. Qed.

Lemma str_length_zero s : String.length s = 0 -> s = "".
Proof. by destruct s. Qed.

Lemma str_drop_app a b : Str.drop (String.length a) (a +:+ b) = b.
Proof. induction a; rewrite ?str_app_nil_l, ?str_app_cons; simpl; [by destruct b|done]. Qed.

Lemma str_drop_0 s : Str.drop 0 s = s.
Proof. by destruct s. Qed.

(** [startswith] is being a prefix. *)
Lemma startswith_spec s p : Str.startswith s p = true <-> exists b, s = p +:+ b.
Proof.
  revert s. induction p as [|c p IH]; intros s; simpl.
  - split; [eauto|done].
  - destruct s as [|c' s].
    + split; [done|by intros [b ?]].
    + destruct (Ascii.eqb_spec c c') as [->|Hne].
      * rewrite IH. split; intros [b Hb]; exists b; simpl in *; congruence.
      * split; [done|]. intros [b Hb]. simpl in Hb. congruence.
Qed.

Lemma occurs_at_0 sub s : occurs_at sub s 0 <-> Str.startswith s sub = true.
Proof.
  rewrite startswith_spec. split.
  - intros (a & b & -> & Ha). apply str_length_zero in Ha as ->. by exists b.
  - intros [b ->]. by exists "", b.
Qed.

Lemma occurs_at_S sub c s i : occurs_at sub (String c s) (S i) <-> occurs_at sub s i.
Proof.
  split.
  - intros (a & b & Heq & Ha). destruct a as [|c' a]; [done|].
    simpl in *. exists a, b. split; congruence.
  - intros (a & b & -> & Ha). exists (String c a), b. by simpl; subst.
Qed.

Lemma occurs_at_empty sub i : occurs_at sub "" i -> sub = "" /\ i = 0.
Proof.
  intros (a & b & Heq & Ha). destruct a; [|done]. destruct sub; [|done]. by simpl in *.
Qed.

(** [find] returns the leftmost occurrence. *)
Lemma find_Some s sub i :
  Str.find s sub = Some i ->
  occurs_at sub s i /\ forall j, occurs_at sub s j -> i <= j.
Proof.
  revert i. induction s as [|c s IH]; intros i; simpl.
  - destruct (Str.startswith "" sub) eqn:Hp; [|done].
    intros [= <-]. split; [by apply occurs_at_0|lia].
  - destruct (Str.startswith (String c s) sub) eqn:Hp.
    + intros [= <-]. split; [by apply occurs_at_0|lia].
    + destruct (Str.find s sub) as [k|] eqn:Hf; [|done].
      intros [= <-]. destruct (IH k eq_refl) as [Hk Hmin]. split.
      * by apply occurs_at_S.
      * intros [|j] Hj.
        -- apply occurs_at_0 in Hj. congruence.
        -- apply occurs_at_S, Hmin in Hj. lia.
Qed.

Lemma find_None s sub : Str.find s sub = None -> ~ occurs sub s.
Proof.
  induction s as [|c s IH]; simpl.
  - destruct (Str.startswith "" sub) eqn:Hp; [done|]. intros _ [i Hi].
    destruct (occurs_at_empty _ _ Hi) as [-> ->]. by apply occurs_at_0 in Hi; congruence.
  - destruct (Str.startswith (String c s) sub) eqn:Hp; [done|].
    destruct (Str.find s sub) eqn:Hf; [done|]. intros _ [[|i] Hi].
    + apply occurs_at_0 in Hi. congruence.
    + apply occurs_at_S in Hi. apply IH; [done|by exists i].
Qed.

Lemma find_is_Some s sub : is_Some (Str.find s sub) <-> occurs sub s.
Proof.
  split.
  - intros [i Hi]. exists i. by apply find_Some.
  - intros Ho. destruct (Str.find s sub) eqn:Hf; [done|]. by apply find_None in Hf.
Qed.

Lemma contains_spec s sub : Str.contains s sub = true <-> occurs sub s.
Proof. unfold Str.contains. by rewrite bool_decide_eq_true, find_is_Some. Qed.

End StrFacts.

Section ReplaceFacts.
Implicit Types (s a b old new : string).

Lemma occurs_shift sub c s : occurs sub s -> occurs sub (String c s).
Proof. intros [i Hi]. exists (S i). by apply occurs_at_S. Qed.

Lemma replace_scan_skip old new k s :
  Str.replace_scan old new k s = Str.replace_scan old new 0 (Str.drop k s).
Proof.
  revert k. induction s as [|c s IH]; intros [|k]; simpl; done.
Qed.

(** Nothing to replace: the text comes back as it is. *)
Lemma replace_scan_none old new s :
  ~ occurs old s -> Str.replace_scan old new 0 s = s.
Proof.
  induction s as [|c s IH]; intros Hno; simpl; [done|].
  destruct (Str.startswith (String c s) old) eqn:Hp.
  - destruct Hno. exists 0. by apply occurs_at_0.
  - rewrite IH; [done|]. intros Ho. by apply Hno, occurs_shift.
Qed.

(** The scan copies the text up to the leftmost occurrence, writes [new]
    and resumes right after the occurrence. *)
Lemma replace_scan_first old new a b :
  old <> "" ->
  (forall i, occurs_at old (a +:+ old +:+ b) i -> String.length a <= i) ->
  Str.replace_scan old new 0 (a +:+ old +:+ b) =
    a +:+ new +:+ Str.replace_scan old new 0 b.
Proof.
  intros Hne. induction a as [|c a IH]; intros Hmin; simpl.
  - destruct old as [|c old]; [done|]. simpl.
    rewrite Ascii.eqb_refl.
    assert (Str.startswith (old +:+ b) old = true) as ->.
    { apply startswith_spec. by exists b. }
    by rewrite replace_scan_skip, Nat.sub_0_r, str_drop_app.
  - destruct (Str.startswith (String c (a +:+ old +:+ b)) old) eqn:Hp.
    + apply occurs_at_0, Hmin in Hp. simpl in Hp. lia.
    + rewrite IH; [done|]. intros i Hi.
      assert (String.length (String c a) <= S i); [|simpl in *; lia].
      apply Hmin. by apply occurs_at_S.
Qed.

(** [str.replace] replaces every occurrence. *)
Lemma replace_replaced old new s :
  old <> "" -> replaced old new s (Str.replace s old new).
Proof.
  intros Hne. unfold Str.replace. destruct old as [|c0 old0] eqn:Hold; [done|].
  rewrite <- Hold in *. clear Hold c0 old0.
  remember (String.length s) as n eqn:Hn. revert s Hn.
  induction n as [n IH] using lt_wf_ind. intros s ->.
  destruct (Str.find s old) as [i|] eqn:Hf.
  - apply find_Some in Hf as [(a & b & -> & Ha) Hmin]. subst i.
    rewrite replace_scan_first by done.
    apply replaced_first; [done|].
    apply (IH (String.length b)); [|done].
    rewrite !str_length_app. destruct old; [done|]. simpl. lia.
  - apply find_None in Hf. rewrite replace_scan_none by done. by apply replaced_none.
Qed.

(** [replaced] determines its result. *)
Lemma replaced_functional old new s s1 s2 :
  old <> "" -> replaced old new s s1 -> replaced old new s s2 -> s1 = s2.
Proof.
  intros Hne H1. revert s2. induction H1 as [s Hno|a b b' Hmin Hb IH]; intros s2 H2.
  - inversion H2 as [|a b b' Hmin' Hb' Heq]; subst; [done|].
    destruct Hno. exists (String.length a). by exists a, b.
  - inversion H2 as [s' Hno|a2 b2 b2' Hmin2 Hb2 Heq]; subst.
    + destruct Hno. exists (String.length a). by exists a, b.
    + assert (String.length a = String.length a2) as Hlen.
      { apply Nat.le_antisymm.
        - apply Hmin. rewrite <- Heq. by exists a2, b2.
        - apply Hmin2. rewrite Heq. by exists a, b. }
      assert (a2 = a /\ b2 = b) as [-> ->].
      { clear -Heq Hlen. revert a2 Heq Hlen.
        induction a as [|c a IHa]; intros [|c2 a2] Heq Hlen; simpl in *; try done.
        - split; [done|]. by apply String.app_inj in Heq.
        - injection Heq as -> Heq. destruct (IHa a2) as [-> ->]; [done|lia|done]. }
      by rewrite (IH _ Hb2).
Qed.

End ReplaceFacts.

(** ** Template rendering *)

Section RenderFacts.
Implicit Types (s : string) (context : list (string * PyVal)) (template : EmailTemplate.t).

Lemma placeholder_nonempty key : EmailTemplate.placeholder key <> "".
Proof. done. Qed.

(** The three texts go through the loop independently of one another. *)
Lemma render_components template context :
  EmailTemplate.render template context =
    (substitute context (EmailTemplate.subject template),
     substitute context (EmailTemplate.body_text template),
     substitute context (EmailTemplate.body_html template)).
Proof.
  unfold EmailTemplate.render.
  generalize (EmailTemplate.subject template) (EmailTemplate.body_text template)
             (EmailTemplate.body_html template).
  induction context as [|[key value] context IH]; intros s1 s2 s3; simpl; [done|].
  by rewrite IH.
Qed.

Lemma substitute_cons key value context s :
  substitute ((key, value) :: context) s =
    substitute context (Str.replace s (EmailTemplate.placeholder key) (py_str value)).
Proof. reflexivity. Qed.

Lemma substitute_substituted context s : substituted context s (substitute context s).
Proof.
  revert s. induction context as [|[key value] context IH]; intros s; simpl.
  - constructor.
  - econstructor; [|apply IH]. apply replace_replaced, placeholder_nonempty.
Qed.

(** [substituted] determines its result. *)
Lemma substituted_functional context s s1 s2 :
  substituted context s s1 -> substituted context s s2 -> s1 = s2.
Proof.
  intros H1. revert s2. induction H1 as [|key value context s t s1 Hr Hs IH]; intros s2 H2.
  - by inversion H2.
  - inversion H2 as [|? ? ? ? t' ? Hr' Hs']; subst.
    apply IH. by rewrite (replaced_functional _ _ _ _ _ (placeholder_nonempty key) Hr Hr').
Qed.

Lemma occurs_at_drop sub s j k :
  occurs_at sub s j -> k <= j -> occurs_at sub (Str.drop k s) (j - k).
Proof.
  revert s j. induction k as [|k IH]; intros s j Hj Hk.
  - by rewrite str_drop_0, Nat.sub_0_r.
  - destruct j as [|j]; [lia|]. destruct s as [|c s].
    + by apply occurs_at_empty in Hj as [_ ?].
    + simpl. apply IH; [|lia]. by apply occurs_at_S in Hj.
Qed.

(** [has_tokenb] decides [has_token]. *)
Lemma has_tokenb_spec s : has_tokenb s = true <-> has_token s.
Proof.
  unfold has_tokenb, has_token. split.
  - destruct (Str.find s "{{") as [i|] eqn:Hf; [|done].
    apply find_Some in Hf as [(a & b & -> & <-) _].
    replace (String.length a + 2) with (String.length (a +:+ "{{"))
      by (rewrite str_length_app; simpl; lia).
    rewrite <- str_app_assoc, str_drop_app, contains_spec.
    intros [j (key & b' & -> & _)]. exists key, (String.length a), a, b'.
    split; [|done]. unfold EmailTemplate.placeholder.
    by rewrite !str_app_assoc.
  - intros [key [j (a & b & Hs & Ha)]].
    assert (occurs_at "{{" s j) as Hopen.
    { exists a, (key +:+ "}}" +:+ b). split; [|done]. rewrite Hs.
      unfold EmailTemplate.placeholder. by rewrite !str_app_assoc. }
    assert (occurs_at "}}" s (j + 2 + String.length key)) as Hclose.
    { exists (a +:+ "{{" +:+ key), b. split.
      - rewrite Hs. unfold EmailTemplate.placeholder. by rewrite !str_app_assoc.
      - rewrite !str_length_app. simpl. lia. }
    destruct (Str.find s "{{") as [i|] eqn:Hf.
    + apply find_Some in Hf as [_ Hmin]. specialize (Hmin _ Hopen).
      apply contains_spec. eexists. apply occurs_at_drop; [exact Hclose|lia].
    + apply find_None in Hf. destruct Hf. by exists j.
Qed.

Lemma has_tokenb_false s : has_tokenb s = false -> ~ has_token s.
Proof. intros Hb Ht. apply has_tokenb_spec in Ht. congruence. Qed.

Lemma substitute_without_tokens context s : ~ has_token s -> substitute context s = s.
Proof.
  intros Hno. induction context as [|[key value] context IH]; [done|].
  rewrite substitute_cons.
  replace (Str.replace s (EmailTemplate.placeholder key) (py_str value)) with s; [done|].
  symmetry. apply (replaced_functional (EmailTemplate.placeholder key) (py_str value) s).
  - apply placeholder_nonempty.
  - apply replace_replaced, placeholder_nonempty.
  - apply replaced_none. intros Ho. apply Hno. by exists key.
Qed.

(** C6. [EmailTemplate.render] returns subject, text body and HTML body in
    which, for each context key in insertion order, every literal occurrence
    of the key's placeholder has been replaced by the stringified value; a
    template with subject [Welcome {{name}} to {{app_name}}] rendered with
    name Bob and app_name X has the subject [Welcome Bob to X]. *)
Theorem render_replaces_placeholders :
  (forall template context,
     substituted context (EmailTemplate.subject template)
       (EmailTemplate.render template context).1.1 /\
     substituted context (EmailTemplate.body_text template)
       (EmailTemplate.render template context).1.2 /\
     substituted context (EmailTemplate.body_html template)
       (EmailTemplate.render template context).2) /\
  (forall id name body_text body_html variables,
     (EmailTemplate.render
        (EmailTemplate.mk id name "Welcome {{name}} to {{app_name}}"
                          body_text body_html variables)
        [("name", VStr "Bob"); ("app_name", VStr "X")]).1.1 = "Welcome Bob to X").
Proof.
  split.
  - intros template context. rewrite render_components. simpl.
    auto using substitute_substituted.
  - intros. by rewrite render_components.
Qed.

(** C9. On a template whose subject, text body and HTML body contain no
    placeholder token, [EmailTemplate.render] returns the three texts
    unchanged, whatever the context: unused keys are ignored. *)
Theorem render_without_tokens template context :
  ~ has_token (EmailTemplate.subject template) ->
  ~ has_token (EmailTemplate.body_text template) ->
  ~ has_token (EmailTemplate.body_html template) ->
  EmailTemplate.render template context =
    (EmailTemplate.subject template,
     EmailTemplate.body_text template,
     EmailTemplate.body_html template).
Proof.
  intros H1 H2 H3. rewrite render_components.
  by rewrite !substitute_without_tokens.
Qed.

Lemma render_without_tokens_witness :
  (~ has_token (EmailTemplate.subject plain_template) /\
   ~ has_token (EmailTemplate.body_text plain_template) /\
   ~ has_token (EmailTemplate.body_html plain_template)) /\
  EmailTemplate.render plain_template welcome_context =
    ("Service notice", "Braces {like} these }} {", "<p>Maintenance tonight</p>").
Proof.
  assert (~ has_token (EmailTemplate.subject plain_template)) as H1
    by (apply has_tokenb_false; reflexivity).
  assert (~ has_token (EmailTemplate.body_text plain_template)) as H2
    by (apply has_tokenb_false; reflexivity).
  assert (~ has_token (EmailTemplate.body_html plain_template)) as H3
    by (apply has_tokenb_false; reflexivity).
  split; [done|].
  exact (render_without_tokens plain_template welcome_context H1 H2 H3).
Defined.

Example render_welcome :
  EmailTemplate.render welcome_template welcome_context =
    ("Welcome Bob to X", "Hi Bob", "<h1>Hi Bob</h1>").
Proof. reflexivity. Qed.

(** Substitution is sequential: a value that spells a later key's
    placeholder is itself substituted. *)
Example render_is_sequential :
  substitute [("a", VStr "{{b}}"); ("b", VStr "!")] "{{a}}" = "!".
Proof. reflexivity. Qed.

End RenderFacts.

(** ** SMTP transport *)

Section SMTPFacts.
Implicit Types (self : SMTPTransport.t) (email : Email.t).

(** A session hands at most one envelope to [sendmail], and its recipient
    list is line 138's. *)
Lemma session_submitted self email msg :
  let w := (SMTPTransport.session self email msg).1 in
  smtp_submitted w = smtp_submitted (SMTPTransport.wire self) \/
  exists from_addr,
    Email.from_addr email = Some from_addr /\
    smtp_submitted w =
      smtp_submitted (SMTPTransport.wire self)
      ++ [mkEnvelope (EmailAddress.email from_addr) (SMTPTransport.recipients email) msg].
Proof.
  unfold SMTPTransport.session.
  destruct (smtp_connect _ _ _); [by left|].
  destruct (if SMTPTransport.use_tls self then _ else _); [by left|].
  destruct (match SMTPTransport.username self with EmptyString => _ | _ => _ end);
    [by left|].
  destruct (Email.from_addr email) as [from_addr|]; [|by left].
  right. by exists from_addr.
Qed.

Lemma submitted_by_cases self email :
  submitted_by self email = [] \/
  exists from_addr msg,
    Email.from_addr email = Some from_addr /\
    SMTPTransport.build_message email = Return msg /\
    submitted_by self email =
      [mkEnvelope (EmailAddress.email from_addr) (SMTPTransport.recipients email) msg].
Proof.
  unfold submitted_by, SMTPTransport.send.
  destruct (SMTPTransport.build_message email) as [msg|e] eqn:Hmsg; simpl.
  - pose proof (session_submitted self email msg) as Hs. simpl in Hs.
    destruct (SMTPTransport.session self email msg) as [w [e|]]; simpl in *.
    all: destruct Hs as [->|(from_addr & Hfrom & ->)];
      [left; by rewrite drop_all
      |right; exists from_addr, msg; by rewrite drop_app_length].
  - left. by rewrite drop_all.
Qed.

(** When the message can be assembled, the server accepts the connection,
    the TLS upgrade and the login, and the message has a sender, the call
    reaches [sendmail]. *)
Lemma submitted_by_reached self email msg from_addr :
  SMTPTransport.build_message email = Return msg ->
  smtp_connect (SMTPTransport.wire self) (SMTPTransport.host self) (SMTPTransport.port self) = None ->
  (SMTPTransport.use_tls self = true -> smtp_starttls (SMTPTransport.wire self) = None) ->
  (SMTPTransport.username self <> "" ->
   smtp_login (SMTPTransport.wire self) (SMTPTransport.username self)
              (SMTPTransport.password self) = None) ->
  Email.from_addr email = Some from_addr ->
  submitted_by self email =
    [mkEnvelope (EmailAddress.email from_addr) (SMTPTransport.recipients email) msg].
Proof.
  intros Hmsg Hconn Htls Hlogin Hfrom.
  unfold submitted_by, SMTPTransport.send, SMTPTransport.session.
  rewrite Hmsg, Hconn, Hfrom.
  destruct (SMTPTransport.use_tls self); [rewrite Htls by done|];
    (destruct (SMTPTransport.username self) eqn:Hu; [|rewrite Hlogin by done]);
    simpl; destruct (smtp_sendmail _ _); simpl; by rewrite drop_app_length.
Qed.

(** C3, as stated, fails: an address named in both [to] and [cc] is handed
    to the server twice. *)
Lemma recipients_union_once_fails :
  ~ recipients_union_once example_smtp email_to_alice_twice.
Proof.
  intros Hclaim.
  destruct (Hclaim (mkEnvelope "noreply@example.com"
                      ["alice@example.com"; "alice@example.com"; "bob@example.com"]
                      (mkMIME "alternative"
                         (SMTPTransport.build_headers email_to_alice_twice)
                         (SMTPTransport.build_bodies email_to_alice_twice))))
    as [Hnodup _].
  - vm_compute. left.
  - apply NoDup_cons in Hnodup as [Hin _]. apply Hin. left.
Qed.

(** C3, amended. The envelope recipient list that [SMTPTransport.send]
    submits is the concatenation of the email fields of [to], [cc] and [bcc],
    in that order: it holds the addresses of the three sequences, each as
    many times as it occurs in them, without de-duplication; and the call
    submits no other envelope. *)
Theorem smtp_recipients_concatenated self email env :
  env ∈ submitted_by self email ->
  env_rcpt env =
    map EmailAddress.email (Email.to email)
    ++ map EmailAddress.email (Email.cc email)
    ++ map EmailAddress.email (Email.bcc email) /\
  submitted_by self email = [env].
Proof.
  intros Hin.
  destruct (submitted_by_cases self email) as [Hnone|(f & msg & _ & _ & Hone)].
  - rewrite Hnone in Hin. by apply elem_of_nil in Hin.
  - rewrite Hone in Hin |- *. apply list_elem_of_singleton in Hin as ->. simpl.
    unfold SMTPTransport.recipients. by rewrite !map_app.
Qed.

Lemma smtp_recipients_concatenated_witness :
  let env :=
    mkEnvelope "noreply@example.com"
      ["alice@example.com"; "alice@example.com"; "bob@example.com"]
      (mkMIME "alternative"
         [("Subject", "Monthly Report"); ("From", "noreply@example.com");
          ("To", "Alice <alice@example.com>"); ("Cc", "Alice <alice@example.com>")]
         [MIMEText "Please find the report attached." "plain"]) in
  env ∈ submitted_by example_smtp email_to_alice_twice /\
  env_rcpt env = ["alice@example.com"; "alice@example.com"; "bob@example.com"] /\
  submitted_by example_smtp email_to_alice_twice = [env].
Proof.
  intros env.
  assert (env ∈ submitted_by example_smtp email_to_alice_twice) as Hin
    by (vm_compute; left).
  split; [exact Hin|].
  exact (smtp_recipients_concatenated example_smtp email_to_alice_twice env Hin).
Defined.

End SMTPFacts.

Example send_example :
  let '(r, s') := Mailer.send example_args example_mailer in
  r = Return 0 /\
  heap (Mailer.world s') =
    [Email.mk "0c9a1e7-52b4" [EmailAddress.mk "a@example.com" ""] "S" "T" ""
       (Some noreply) None [] [] [] [] SENT 1000%Z (Some 1001%Z) None (Some "1c9a1e7-") []] /\
  Mailer.sent_emails (Mailer.self s') !! "0c9a1e7-52b4" = Some 0 /\
  MockTransport.sent_emails (Mailer.transport (Mailer.self s')) = [0].
Proof. vm_compute. done. Qed.

(** ** The methods in closed form *)

Section MethodFacts.
Context {T : Type} `{!Transport T}.
Implicit Types (s : Mailer.State (T := T)) (args : SendArgs.t) (c : Call).

Lemma send_bulk_snoc emails args :
  Mailer.send_bulk (emails ++ [args]) =
    Mailer.bind (Mailer.send_bulk emails)
      (fun results =>
         Mailer.bind (Mailer.send args)
           (fun result => Mailer.ret (results ++ [result]))).
Proof. unfold Mailer.send_bulk. by rewrite fold_left_app. Qed.

Lemma sends_state_snoc emails args s :
  sends_state (emails ++ [args]) s = send_state args (sends_state emails s).
Proof. unfold sends_state. by rewrite fold_left_app. Qed.

Lemma send_state_heap args s :
  heap (Mailer.world (send_state args s)) =
    heap (Mailer.world s) ++ [(run_after (send_run args s)).1.1].
Proof. reflexivity. Qed.

Lemma sends_state_heap_length emails s :
  List.length (heap (Mailer.world (sends_state emails s))) =
    List.length (heap (Mailer.world s)) + List.length emails.
Proof.
  induction emails as [|args emails IH] using rev_ind; simpl; [lia|].
  rewrite sends_state_snoc, send_state_heap, !length_app, IH. simpl. lia.
Qed.

(** [send_bulk] always returns: one reference per entry, in input order,
    each the object allocated by that entry's [send]. *)
Lemma send_bulk_closed emails s :
  Mailer.send_bulk emails s =
    (Return (seq (List.length (heap (Mailer.world s))) (List.length emails)),
     sends_state emails s).
Proof.
  induction emails as [|args emails IH] using rev_ind; [done|].
  rewrite send_bulk_snoc. unfold Mailer.bind at 1. rewrite IH.
  unfold Mailer.bind at 1. rewrite send_closed. unfold Mailer.ret.
  rewrite sends_state_snoc, sends_state_heap_length, length_app, seq_app.
  reflexivity.
Qed.

Lemma send_template_unknown template_id to context kw s :
  Mailer.templates (Mailer.self s) !! template_id = None ->
  Mailer.send_template template_id to context kw s =
    (Return None,
     Mailer.mkState (Mailer.self s)
       (Mailer.set_log (log (Mailer.world s) ++ [Log_template_not_found template_id])
                       (Mailer.world s))).
Proof.
  intros Hnone. unfold Mailer.send_template, Mailer.bind at 1, Mailer.get.
  by rewrite Hnone.
Qed.

Lemma send_template_known template_id to context kw s template :
  Mailer.templates (Mailer.self s) !! template_id = Some template ->
  Mailer.send_template template_id to context kw s =
    let r := EmailTemplate.render template (default [] context) in
    let args := SendArgs.mk to r.1.1 r.1.2 r.2 kw in
    (Return (Some (List.length (heap (Mailer.world s)))), send_state args s).
Proof.
  intros Hsome. unfold Mailer.send_template, Mailer.bind at 1, Mailer.get.
  rewrite Hsome.
  destruct (EmailTemplate.render template (default [] context)) as [[subject body_text] body_html].
  unfold Mailer.bind. by rewrite send_closed.
Qed.

Lemma add_hook_closed event handler s :
  Mailer.add_hook event handler s =
    (Return tt,
     match Mailer.hooks (Mailer.self s) !! event with
     | Some handlers =>
         Mailer.mkState
           (Mailer.set_hooks (<[event := handlers ++ [handler]]> (Mailer.hooks (Mailer.self s)))
                             (Mailer.self s))
           (Mailer.world s)
     | None => s
     end).
Proof.
  unfold Mailer.add_hook, Mailer.bind, Mailer.get.
  by destruct (Mailer.hooks (Mailer.self s) !! event).
Qed.

(** Every call returns, and leaves one of a few shapes of state. *)
Lemma run_call_closed c s :
  run_call c s =
    match c with
    | Call_add_hook event handler => (Mailer.add_hook event handler s).2
    | Call_register_template template =>
        Mailer.mkState
          (Mailer.set_templates
             (<[EmailTemplate.id template := template]> (Mailer.templates (Mailer.self s)))
             (Mailer.self s))
          (Mailer.world s)
    | Call_send args => send_state args s
    | Call_send_template template_id to context kw =>
        match Mailer.templates (Mailer.self s) !! template_id with
        | None =>
            Mailer.mkState (Mailer.self s)
              (Mailer.set_log (log (Mailer.world s) ++ [Log_template_not_found template_id])
                              (Mailer.world s))
        | Some template =>
            let r := EmailTemplate.render template (default [] context) in
            send_state (SendArgs.mk to r.1.1 r.1.2 r.2 kw) s
        end
    | Call_send_bulk emails => sends_state emails s
    | Call_get_email _ | Call_stats => s
    end.
Proof.
  destruct c as [event handler|template|args|template_id to context kw|emails|email_id|];
    simpl; try done.
  - by rewrite send_closed.
  - destruct (Mailer.templates (Mailer.self s) !! template_id) as [template|] eqn:Ht.
    + by rewrite (send_template_known _ _ _ _ _ template).
    + by rewrite send_template_unknown.
  - by rewrite send_bulk_closed.
Qed.

End MethodFacts.

(** ** Hook registration and unknown templates *)

Section RegistryFacts.
Context {T : Type} `{!Transport T}.
Implicit Types (s : Mailer.State (T := T)) (args : SendArgs.t) (c : Call).

Lemma sends_state_hooks emails s :
  Mailer.hooks (Mailer.self (sends_state emails s)) = Mailer.hooks (Mailer.self s).
Proof.
  induction emails as [|args emails IH] using rev_ind; [done|].
  by rewrite sends_state_snoc.
Qed.

Lemma add_hook_events event handler s :
  dom (Mailer.hooks (Mailer.self (Mailer.add_hook event handler s).2)) =
    dom (Mailer.hooks (Mailer.self s)).
Proof.
  rewrite add_hook_closed. simpl.
  destruct (Mailer.hooks (Mailer.self s) !! event) as [handlers|] eqn:Hev; [|done].
  simpl. rewrite dom_insert_L.
  apply subseteq_union_1_L, singleton_subseteq_l. by apply elem_of_dom_2 in Hev.
Qed.

(** No method adds or removes a hook list. *)
Lemma run_call_events c s :
  dom (Mailer.hooks (Mailer.self (run_call c s))) = dom (Mailer.hooks (Mailer.self s)).
Proof.
  rewrite run_call_closed.
  destruct c as [event handler|template|args|template_id to context kw|emails|email_id|];
    try done.
  - apply add_hook_events.
  - by destruct (Mailer.templates (Mailer.self s) !! template_id).
  - by rewrite sends_state_hooks.
Qed.

Lemma run_calls_cons c calls s :
  run_calls (c :: calls) s = run_calls calls (run_call c s).
Proof. reflexivity. Qed.

Lemma run_calls_events calls s :
  dom (Mailer.hooks (Mailer.self (run_calls calls s))) = dom (Mailer.hooks (Mailer.self s)).
Proof.
  revert s. induction calls as [|c calls IH]; intros s; [done|].
  by rewrite run_calls_cons, IH, run_call_events.
Qed.

(** A mailer has hook lists for its three events and for nothing else. *)
Lemma reachable_events s :
  reachable s -> dom (Mailer.hooks (Mailer.self s)) = hook_events.
Proof.
  intros (s0 & calls & (transport & default_from & Hinit) & ->).
  rewrite run_calls_events, Hinit. simpl.
  rewrite !dom_insert_L, dom_empty_L. unfold hook_events. set_solver.
Qed.

(** C10. For an event name other than before_send, after_send and on_error,
    [add_hook] is a no-op: it returns without error and leaves the hook
    lists and the whole state of the mailer as they were, so a handler
    registered under a misspelled name is never invoked: every later run is
    the run without the call. *)
Theorem add_hook_unknown_event s event handler :
  reachable s ->
  event <> "before_send" -> event <> "after_send" -> event <> "on_error" ->
  Mailer.add_hook event handler s = (Return tt, s) /\
  forall calls, run_calls (Call_add_hook event handler :: calls) s = run_calls calls s.
Proof.
  intros Hreach H1 H2 H3.
  assert (Mailer.add_hook event handler s = (Return tt, s)) as Heq.
  { rewrite add_hook_closed.
    destruct (Mailer.hooks (Mailer.self s) !! event) as [handlers|] eqn:Hev; [|done].
    assert (event ∈ hook_events) as Hin.
    { rewrite <- (reachable_events s Hreach). apply elem_of_dom. eauto. }
    unfold hook_events in Hin.
    rewrite !elem_of_union, !elem_of_singleton in Hin. by destruct Hin as [[?|?]|?]. }
  split; [done|]. intros calls. rewrite run_calls_cons. simpl. by rewrite Heq.
Qed.

End RegistryFacts.

Lemma example_mailer_reachable : reachable example_mailer.
Proof. exists example_mailer, []. split; [|done]. by exists MockTransport.init, None. Qed.

Lemma add_hook_unknown_event_witness :
  reachable example_mailer /\
  Mailer.add_hook "after-send" (fun e => (e, None)) example_mailer = (Return tt, example_mailer).
Proof.
  split; [exact example_mailer_reachable|].
  apply (add_hook_unknown_event example_mailer "after-send" (fun e => (e, None))
           example_mailer_reachable); done.
Defined.

Section TemplateFacts.
Context {T : Type} `{!Transport T}.
Implicit Types (s : Mailer.State (T := T)).

(** C4. With a template id that is not in the registry, [send_template]
    returns None, makes no call to the transport, creates no message and
    leaves the message table as it was; it only logs. *)
Theorem send_template_unregistered s template_id to context kw :
  Mailer.templates (Mailer.self s) !! template_id = None ->
  let r := Mailer.send_template template_id to context kw s in
  r.1 = Return None /\
  transport_calls_of (events_since s r.2) = [] /\
  Mailer.transport (Mailer.self r.2) = Mailer.transport (Mailer.self s) /\
  created_of (events_since s r.2) = [] /\
  heap (Mailer.world r.2) = heap (Mailer.world s) /\
  Mailer.sent_emails (Mailer.self r.2) = Mailer.sent_emails (Mailer.self s) /\
  size (Mailer.sent_emails (Mailer.self r.2)) = size (Mailer.sent_emails (Mailer.self s)) /\
  log (Mailer.world r.2) = log (Mailer.world s) ++ [Log_template_not_found template_id].
Proof.
  intros Hnone. rewrite send_template_unknown by done. simpl.
  unfold events_since. simpl. by rewrite drop_all.
Qed.

End TemplateFacts.

Lemma send_template_unregistered_witness :
  Mailer.templates (Mailer.self example_mailer) !! "welcome" = None /\
  (Mailer.send_template "welcome" [ToStr "bob@example.com"] (Some welcome_context)
     Kwargs.empty example_mailer).1 = Return None.
Proof.
  split; [reflexivity|].
  apply (send_template_unregistered example_mailer "welcome" [ToStr "bob@example.com"]
           (Some welcome_context) Kwargs.empty).
  reflexivity.
Defined.

(** ** One [send] call *)

Section SendFacts.
Context {T : Type} `{!Transport T}.
Implicit Types (s : Mailer.State (T := T)) (args : SendArgs.t) (hs : list Handler).

Lemma events_since_send args s :
  events_since s (send_state args s) =
    let r := send_run args s in
    [Created (run_email r) (run_created r)] ++ (run_before r).2
      ++ [TransportCall (run_email r) (run_seen r) (run_transport r).2]
      ++ (run_after r).2.
Proof. unfold events_since. simpl. by rewrite drop_app_length. Qed.


End SendFacts.

(** ** Hooks *)

Section HookFacts.
Context {T : Type} `{!Transport T}.
Implicit Types (s : Mailer.State (T := T)) (args : SendArgs.t) (hs : list Handler)
  (h : Handler) (e seen : Email.t).

Lemma hook_calls_of_app event (l1 l2 : list Event) :
  hook_calls_of event (l1 ++ l2) = hook_calls_of event l1 ++ hook_calls_of event l2.
Proof. apply omap_app. Qed.

Lemma transport_calls_of_app (l1 l2 : list Event) :
  transport_calls_of (l1 ++ l2) = transport_calls_of l1 ++ transport_calls_of l2.
Proof. apply omap_app. Qed.

Lemma created_of_app (l1 l2 : list Event) :
  created_of (l1 ++ l2) = created_of l1 ++ created_of l2.
Proof. apply omap_app. Qed.

(** Hooks make no transport call and create no message. *)
Lemma hooks_run_transport_calls event email hs seen :
  transport_calls_of (hooks_run event email hs seen).2 = [].
Proof.
  revert seen. induction hs as [|h hs IH]; intros seen; simpl; [done|].
  specialize (IH (h seen).1).
  by destruct (hooks_run event email hs (h seen).1) as [[final records] calls].
Qed.

Lemma hooks_run_created event email hs seen :
  created_of (hooks_run event email hs seen).2 = [].
Proof.
  revert seen. induction hs as [|h hs IH]; intros seen; simpl; [done|].
  specialize (IH (h seen).1).
  by destruct (hooks_run event email hs (h seen).1) as [[final records] calls].
Qed.

(** The calls of the hooks of another event are not calls of [event]. *)
Lemma hooks_run_other_event event event' email hs seen :
  event' <> event -> hook_calls_of event (hooks_run event' email hs seen).2 = [].
Proof.
  intros Hne. revert seen. induction hs as [|h hs IH]; intros seen; simpl; [done|].
  specialize (IH (h seen).1).
  destruct (hooks_run event' email hs (h seen).1) as [[final records] calls].
  simpl in *. by rewrite decide_False.
Qed.

Lemma hooks_run_cons event email h hs seen :
  hooks_run event email (h :: hs) seen =
    let r := hooks_run event email hs (h seen).1 in
    (r.1.1,
     match (h seen).2 with Some e => Log_hook_error e :: r.1.2 | None => r.1.2 end,
     HookCall event h email seen :: r.2).
Proof.
  simpl. by destruct (hooks_run event email hs (h seen).1) as [[final records] calls].
Qed.


(** Each hook is called once, in registration order. *)
Lemma hook_calls_of_cons event h email seen (events : list Event) :
  hook_calls_of event (HookCall event h email seen :: events) =
    (h, email, seen) :: hook_calls_of event events.
Proof. unfold hook_calls_of. simpl. by rewrite decide_True. Qed.

Lemma hooks_run_handlers event email hs seen :
  (hook_calls_of event (hooks_run event email hs seen).2).*1.*1 = hs /\
  Forall (fun call => call.1.2 = email) (hook_calls_of event (hooks_run event email hs seen).2).
Proof.
  revert seen. induction hs as [|h hs IH]; intros seen; [done|].
  rewrite hooks_run_cons. cbv zeta. cbn [snd]. rewrite hook_calls_of_cons, !fmap_cons.
  destruct (IH (h seen).1) as [-> Hall]. split; [done|]. by constructor.
Qed.

(** Hooks that keep a property of the message keep it over the whole run. *)
Lemma hooks_run_keeps (f : Email.t -> Prop) event email hs seen :
  Forall (fun h => forall e, f e -> f (h e).1) hs ->
  f seen -> f (hooks_run event email hs seen).1.1.
Proof.
  intros Hall. revert seen.
  induction Hall as [|h hs Hh Hall IH]; intros seen Hseen; [done|].
  rewrite hooks_run_cons. simpl. by apply IH, Hh.
Qed.



End HookFacts.

Section AfterSend.
Context {T : Type} `{!Transport T}.
Implicit Types (s : Mailer.State (T := T)) (args : SendArgs.t) (hs : list Handler)
  (h : Handler) (e seen : Email.t).

(** The branch taken after the transport call. *)
Lemma send_run_return args s b :
  (run_transport (send_run args s)).2 = Return b ->
  let r := send_run args s in
  run_resolved r =
    Email.set_sent_at (Some (now (Mailer.world s) (run_now_calls r)))
                      (Email.set_status SENT (run_seen r)) /\
  run_after r =
    hooks_run "after_send" (run_email r) (handlers_of (Mailer.self s) "after_send")
              (run_resolved r).
Proof. unfold send_run. simpl. by intros ->. Qed.

Lemma send_run_raise args s (err : string) :
  (run_transport (send_run args s)).2 = Raise err ->
  let r := send_run args s in
  run_resolved r = Email.set_error (Some err) (Email.set_status FAILED (run_seen r)) /\
  run_after r =
    hooks_run "on_error" (run_email r) (handlers_of (Mailer.self s) "on_error")
              (run_resolved r).
Proof. unfold send_run. simpl. by intros ->. Qed.

Lemma send_run_seen args s :
  run_seen (send_run args s) = Email.set_status SENDING (run_before (send_run args s)).1.1.
Proof. reflexivity. Qed.

Lemma send_run_before args s :
  run_before (send_run args s) =
    hooks_run "before_send" (run_email (send_run args s))
              (handlers_of (Mailer.self s) "before_send") (run_created (send_run args s)).
Proof. reflexivity. Qed.


#[local] Arguments send_run : simpl never.
#[local] Arguments send_state : simpl never.


(** The transport call of a [send] is the only one recorded for it. *)
Lemma transport_calls_of_send args s :
  transport_calls_of (events_since s (send_state args s)) =
    [(List.length (heap (Mailer.world s)), (run_transport (send_run args s)).2)].
Proof.
  rewrite events_since_send. cbv zeta.
  rewrite !transport_calls_of_app.
  assert (transport_calls_of (run_before (send_run args s)).2 = []) as ->
    by apply hooks_run_transport_calls.
  assert (transport_calls_of (run_after (send_run args s)).2 = []) as ->.
  { unfold send_run. simpl. destruct (transport_send _ _ _).2; apply hooks_run_transport_calls. }
  done.
Qed.

Lemma hook_calls_of_send event args s :
  event <> "before_send" ->
  hook_calls_of event (events_since s (send_state args s)) =
    hook_calls_of event (run_after (send_run args s)).2.
Proof.
  intros Hne. rewrite events_since_send. cbv zeta.
  rewrite !hook_calls_of_app.
  assert (hook_calls_of event (run_before (send_run args s)).2 = []) as ->
    by (by apply hooks_run_other_event).
  done.
Qed.


End AfterSend.



(** ** Lifecycle of a message *)

Section LifecycleFacts.
Context {T : Type} `{!Transport T}.
Implicit Types (s : Mailer.State (T := T)) (args : SendArgs.t) (hs : list Handler)
  (h : Handler) (c : Call).

#[local] Arguments send_run : simpl never.
#[local] Arguments send_state : simpl never.

Lemma created_of_send args s :
  created_of (events_since s (send_state args s)) =
    [(List.length (heap (Mailer.world s)), run_created (send_run args s))].
Proof.
  rewrite events_since_send. cbv zeta. rewrite !created_of_app.
  assert (created_of (run_before (send_run args s)).2 = []) as ->
    by apply hooks_run_created.
  assert (created_of (run_after (send_run args s)).2 = []) as ->.
  { unfold send_run. simpl. destruct (transport_send _ _ _).2; apply hooks_run_created. }
  done.
Qed.

Lemma sends_state_heap emails s :
  exists added, heap (Mailer.world (sends_state emails s)) = heap (Mailer.world s) ++ added.
Proof.
  induction emails as [|args emails [added IH]] using rev_ind.
  - exists []. by rewrite app_nil_r.
  - rewrite sends_state_snoc, send_state_heap, IH, <- app_assoc. eauto.
Qed.

(** Calls only ever add objects to the heap. *)
Lemma run_call_heap c s :
  exists added, heap (Mailer.world (run_call c s)) = heap (Mailer.world s) ++ added.
Proof.
  rewrite run_call_closed.
  destruct c as [event handler|template|args|template_id to context kw|emails|email_id|].
  - rewrite add_hook_closed. simpl. exists [].
    rewrite app_nil_r. by destruct (Mailer.hooks (Mailer.self s) !! event).
  - exists []. by rewrite app_nil_r.
  - rewrite send_state_heap. eauto.
  - destruct (Mailer.templates (Mailer.self s) !! template_id).
    + cbv zeta. rewrite send_state_heap. eauto.
    + exists []. by rewrite app_nil_r.
  - apply sends_state_heap.
  - exists []. by rewrite app_nil_r.
  - exists []. by rewrite app_nil_r.
Qed.

Lemma run_calls_heap calls s :
  exists added, heap (Mailer.world (run_calls calls s)) = heap (Mailer.world s) ++ added.
Proof.
  revert s. induction calls as [|c calls IH]; intros s.
  - exists []. by rewrite app_nil_r.
  - rewrite run_calls_cons. destruct (IH (run_call c s)) as [added2 ->].
    destruct (run_call_heap c s) as [added1 ->]. rewrite <- app_assoc. eauto.
Qed.

(** Once [send] has returned, no later call touches the message. *)
Lemma run_calls_frame calls s email value :
  heap (Mailer.world s) !! email = Some value ->
  heap (Mailer.world (run_calls calls s)) !! email = Some value.
Proof.
  intros Hcell. destruct (run_calls_heap calls s) as [added ->].
  by apply lookup_app_l_Some.
Qed.

End LifecycleFacts.

Section Lifecycle.
Context {T : Type} `{!Transport T}.
Implicit Types (s : Mailer.State (T := T)) (args : SendArgs.t) (hs : list Handler)
  (h : Handler).

#[local] Arguments send_run : simpl never.
#[local] Arguments send_state : simpl never.

Ltac fields :=
  cbn [Email.status Email.sent_at Email.created_at Email.error Email.id
       Email.set_status Email.set_sent_at Email.set_error].

Lemma hooks_run_lifecycle event email hs seen :
  Forall keeps_lifecycle hs ->
  let final := (hooks_run event email hs seen).1.1 in
  Email.status final = Email.status seen /\
  Email.sent_at final = Email.sent_at seen /\
  Email.created_at final = Email.created_at seen.
Proof.
  intros Hall.
  apply (hooks_run_keeps
           (fun e => Email.status e = Email.status seen /\
                     Email.sent_at e = Email.sent_at seen /\
                     Email.created_at e = Email.created_at seen)); [|done].
  eapply Forall_impl; [exact Hall|]. intros h Hh e (He1 & He2 & He3).
  destruct (Hh e) as (-> & -> & ->). done.
Qed.

(** Without presets a message is born pending, with no sentAt and the
    clock's reading as createdAt. *)
Lemma send_run_created args s :
  no_lifecycle_presets (SendArgs.kwargs args) ->
  let r := send_run args s in
  let w := Mailer.world s in
  Email.status (run_created r) = PENDING /\
  Email.sent_at (run_created r) = None /\
  Email.created_at (run_created r) = now w (now_calls w) /\
  run_now_calls r = S (now_calls w).
Proof.
  intros (Hst & Hca & Hsa). unfold send_run, Mailer.construct. simpl.
  by rewrite Hst, Hca, Hsa.
Qed.

Lemma send_run_seen_fields args s :
  no_lifecycle_presets (SendArgs.kwargs args) ->
  Forall keeps_lifecycle (handlers_of (Mailer.self s) "before_send") ->
  let r := send_run args s in
  let w := Mailer.world s in
  Email.status (run_seen r) = SENDING /\
  Email.sent_at (run_seen r) = None /\
  Email.created_at (run_seen r) = now w (now_calls w).
Proof.
  intros Hkw Hbefore.
  destruct (send_run_created args s Hkw) as (_ & Hc2 & Hc3 & _).
  cbv zeta. rewrite send_run_seen, send_run_before. fields.
  destruct (hooks_run_lifecycle "before_send" (run_email (send_run args s))
              (handlers_of (Mailer.self s) "before_send")
              (run_created (send_run args s)) Hbefore) as (_ & -> & ->).
  done.
Qed.

(** C2, amended. For a [send] call whose keyword arguments do not preset
    status, created_at or sent_at, on a mailer whose hooks do not assign to
    these three fields, with a clock that does not run backwards: the
    message is pending when created, sending when handed to the transport,
    sent or failed when [send] returns and untouched by every later call,
    and createdAt is no later than sentAt whenever sentAt is set. *)
Theorem send_lifecycle s args :
  no_lifecycle_presets (SendArgs.kwargs args) ->
  hooks_satisfy keeps_lifecycle (Mailer.self s) ->
  clock_monotone (Mailer.world s) ->
  lifecycle_claim s args.
Proof.
  intros Hkw (Hbefore & Hafter & Herror) Hclock.
  destruct (send_run_created args s Hkw) as (Hc1 & _ & _ & Hnc).
  destruct (send_run_seen_fields args s Hkw Hbefore) as (Hseen & Hseen_at & Hseen_created).
  exists (run_email (send_run args s)), (send_state args s),
         (run_created (send_run args s)), (run_seen (send_run args s)),
         (run_transport (send_run args s)).2, (run_after (send_run args s)).1.1.
  split; [apply send_closed|].
  split; [rewrite created_of_send; apply list_elem_of_singleton; done|].
  split; [done|].
  split.
  { rewrite events_since_send. cbv zeta.
    apply elem_of_app. right. apply elem_of_app. right. apply elem_of_app. left.
    by apply list_elem_of_singleton. }
  split; [done|].
  assert (heap (Mailer.world (send_state args s)) !! run_email (send_run args s)
          = Some (run_after (send_run args s)).1.1)
    as Hcell by (rewrite send_state_heap; apply lookup_last_cell).
  split; [done|].
  assert ((Email.status (run_after (send_run args s)).1.1 = SENT \/
           Email.status (run_after (send_run args s)).1.1 = FAILED) /\
          forall d, Email.sent_at (run_after (send_run args s)).1.1 = Some d ->
                    (Email.created_at (run_after (send_run args s)).1.1 <= d)%Z)
    as [Hstatus Hle].
  { destruct (run_transport (send_run args s)).2 as [b|err] eqn:Hres.
    - destruct (send_run_return _ _ _ Hres) as [Hresolved Hrun].
      rewrite Hrun.
      destruct (hooks_run_lifecycle "after_send" (run_email (send_run args s))
                  (handlers_of (Mailer.self s) "after_send")
                  (run_resolved (send_run args s)) Hafter)
        as (-> & -> & ->).
      rewrite Hresolved. fields. split; [by left|].
      intros d Hd. rewrite Hnc in Hd. injection Hd as <-.
      rewrite Hseen_created. apply Hclock. lia.
    - destruct (send_run_raise _ _ _ Hres) as [Hresolved Hrun].
      rewrite Hrun.
      destruct (hooks_run_lifecycle "on_error" (run_email (send_run args s))
                  (handlers_of (Mailer.self s) "on_error")
                  (run_resolved (send_run args s)) Herror)
        as (-> & -> & ->).
      rewrite Hresolved. fields. split; [by right|].
      intros d Hd. congruence. }
  split; [done|]. split; [|done].
  intros calls. by apply run_calls_frame.
Qed.

End Lifecycle.

(** C2, as stated, fails: [send] forwards a [created_at] keyword to the
    constructor, and a given time may lie after the time of sending. *)
Lemma lifecycle_claim_fails : ~ lifecycle_claim example_mailer postdated_args.
Proof.
  intros (email & s' & created & seen & result & final & Hsend & _ & _ & _ & _ &
          Hfinal & _ & _ & Hle).
  rewrite send_closed in Hsend. injection Hsend as <- <-.
  vm_compute in Hfinal. injection Hfinal as <-.
  specialize (Hle 1000%Z eq_refl). simpl in Hle. lia.
Qed.

Lemma example_clock_monotone : clock_monotone example_world.
Proof. intros i j Hij. simpl. lia. Qed.

Lemma send_lifecycle_witness :
  let s := run_calls [Call_add_hook "before_send" hook_raising] example_mailer in
  no_lifecycle_presets (SendArgs.kwargs example_args) /\
  hooks_satisfy keeps_lifecycle (Mailer.self s) /\
  clock_monotone (Mailer.world s) /\
  lifecycle_claim s example_args.
Proof.
  intros s.
  assert (no_lifecycle_presets (SendArgs.kwargs example_args)) as Hkw by done.
  assert (hooks_satisfy keeps_lifecycle (Mailer.self s)) as Hhooks.
  { repeat split; vm_compute; repeat constructor. }
  assert (clock_monotone (Mailer.world s)) as Hclock by exact example_clock_monotone.
  split; [exact Hkw|]. split; [exact Hhooks|]. split; [exact Hclock|].
  exact (send_lifecycle s example_args Hkw Hhooks Hclock).
Defined.

(** ** Bulk sending *)

Section BulkFacts.
Context {T : Type} `{!Transport T}.
Implicit Types (s : Mailer.State (T := T)) (args : SendArgs.t) (emails : list SendArgs.t).

#[local] Arguments send_run : simpl never.
#[local] Arguments send_state : simpl never.

Lemma send_state_trace args s :
  trace (Mailer.world (send_state args s)) =
    trace (Mailer.world s) ++ events_since s (send_state args s).
Proof. rewrite events_since_send. reflexivity. Qed.

Lemma events_since_app s s1 s2 :
  trace (Mailer.world s1) = trace (Mailer.world s) ++ events_since s s1 ->
  trace (Mailer.world s2) = trace (Mailer.world s1) ++ events_since s1 s2 ->
  events_since s s2 = events_since s s1 ++ events_since s1 s2 /\
  trace (Mailer.world s2) = trace (Mailer.world s) ++ events_since s s2.
Proof.
  intros H1 H2.
  assert (events_since s s2 = events_since s s1 ++ events_since s1 s2) as Heq.
  { unfold events_since at 1. rewrite H2, H1, <- app_assoc. by rewrite drop_app_length. }
  split; [done|]. by rewrite Heq, app_assoc, <- H1.
Qed.

Lemma sends_state_trace emails s :
  trace (Mailer.world (sends_state emails s)) =
    trace (Mailer.world s) ++ events_since s (sends_state emails s).
Proof.
  induction emails as [|args emails IH] using rev_ind.
  - unfold events_since. simpl. by rewrite drop_all, app_nil_r.
  - rewrite sends_state_snoc.
    by apply (events_since_app s (sends_state emails s)), send_state_trace.
Qed.

Lemma events_since_sends_snoc emails args s :
  events_since s (sends_state (emails ++ [args]) s) =
    events_since s (sends_state emails s)
    ++ events_since (sends_state emails s) (send_state args (sends_state emails s)).
Proof.
  rewrite sends_state_snoc.
  by apply (events_since_app s (sends_state emails s)), send_state_trace; apply sends_state_trace.
Qed.

Lemma send_run_built_from args s : built_from args (run_created (send_run args s)).
Proof. done. Qed.

Lemma sends_state_events emails s :
  let events := events_since s (sends_state emails s) in
  let results := seq (List.length (heap (Mailer.world s))) (List.length emails) in
  (created_of events).*1 = results /\
  Forall2 built_from emails (created_of events).*2 /\
  (transport_calls_of events).*1 = results.
Proof.
  induction emails as [|args emails IH] using rev_ind.
  - cbv zeta. unfold events_since. simpl. rewrite drop_all. by repeat split.
  - cbv zeta in *. destruct IH as (IH1 & IH2 & IH3).
    rewrite events_since_sends_snoc, created_of_app, transport_calls_of_app, !fmap_app.
    rewrite created_of_send, transport_calls_of_send, IH1, IH3.
    rewrite length_app, seq_app, sends_state_heap_length. simpl.
    split; [done|]. split; [|done].
    apply Forall2_app; [done|]. repeat constructor.
Qed.

Lemma sends_state_as_sends emails s :
  sends_state emails s = fold_left (fun s args => (Mailer.send args s).2) emails s.
Proof.
  unfold sends_state. revert s.
  induction emails as [|args emails IH]; intros s; simpl; [done|].
  by rewrite IH, send_closed.
Qed.

(** C8. For a list of K argument sets, [send_bulk] calls [send] once per
    entry in list order and returns K references, the i-th being the message
    built from the i-th entry; every entry's message is handed to the
    transport, whether or not the sends before it failed. *)
Theorem send_bulk_in_order emails s :
  exists results s',
    Mailer.send_bulk emails s = (Return results, s') /\
    s' = fold_left (fun s args => (Mailer.send args s).2) emails s /\
    List.length results = List.length emails /\
    (created_of (events_since s s')).*1 = results /\
    Forall2 built_from emails (created_of (events_since s s')).*2 /\
    (transport_calls_of (events_since s s')).*1 = results.
Proof.
  exists (seq (List.length (heap (Mailer.world s))) (List.length emails)),
         (sends_state emails s).
  split; [apply send_bulk_closed|].
  split; [apply sends_state_as_sends|].
  split; [apply length_seq|].
  apply sends_state_events.
Qed.

End BulkFacts.

Example send_bulk_example :
  let '(r, s') := Mailer.send_bulk example_bulk smtp_mailer in
  r = Return [0; 1; 2] /\
  Email.status <$> heap (Mailer.world s') = [SENT; FAILED; SENT] /\
  Email.error <$> heap (Mailer.world s') =
    [None; Some "{'bounce@example.com': (550, b'User unknown')}"; None] /\
  transport_calls_of (trace (Mailer.world s')) =
    [(0, Return true);
     (1, Raise "{'bounce@example.com': (550, b'User unknown')}");
     (2, Return true)].
Proof. vm_compute. done. Qed.


(** ** Statistics *)

Section StatsFacts.
Context {T : Type} `{!Transport T}.
Implicit Types (s : Mailer.State (T := T)) (args : SendArgs.t) (hs : list Handler)
  (h : Handler) (c : Call).

#[local] Arguments send_run : simpl never.
#[local] Arguments send_state : simpl never.











End StatsFacts.

Section StatsCount.
Context {T : Type} `{!Transport T}.
Implicit Types (s : Mailer.State (T := T)) (h : list Email.t) (emails : list loc).

Lemma stats_closed s :
  Mailer.stats s =
    let h := heap (Mailer.world s) in
    let emails := (map_to_list (Mailer.sent_emails (Mailer.self s))).*2 in
    (Return (<["total" := List.length emails]>
             (<["sent" := Mailer.count_status h emails SENT]>
              (<["failed" := Mailer.count_status h emails FAILED]>
               (<["pending" := Mailer.count_status h emails PENDING]> ∅)))),
     s).
Proof. reflexivity. Qed.







End StatsCount.

Lemma smtp_mailer_constructed : constructed smtp_mailer.
Proof. by eexists _, None. Qed.


Example stats_example :
  let s := run_calls example_calls smtp_mailer in
  succeeded (events_since smtp_mailer s) = 2 /\
  failed (events_since smtp_mailer s) = 1 /\
  exists st,
    (Mailer.stats s).1 = Return st /\
    st !! "total" = Some 3 /\ st !! "sent" = Some 2 /\
    st !! "failed" = Some 1 /\ st !! "pending" = Some 0.
Proof.
  split; [by vm_compute|]. split; [by vm_compute|].
  eexists. split; [reflexivity|]. by vm_compute.
Qed.

(** A refused message: [send] returns it failed, with the server's answer
    as error, stored under its id; the on_error hook ran and its own
    exception was logged. *)
Example send_failure_example :
  let s := run_calls [Call_add_hook "on_error" hook_raising] smtp_mailer in
  let '(r, s') := Mailer.send (args_to "bounce@example.com") s in
  r = Return 0 /\
  (Email.status <$> heap (Mailer.world s') !! 0) = Some FAILED /\
  (Email.error <$> heap (Mailer.world s') !! 0) =
    Some (Some "{'bounce@example.com': (550, b'User unknown')}") /\
  (Email.sent_at <$> heap (Mailer.world s') !! 0) = Some None /\
  Mailer.sent_emails (Mailer.self s') !! "0c9a1e7-52b4" = Some 0 /\
  log (Mailer.world s') =
    [Log_smtp_error "{'bounce@example.com': (550, b'User unknown')}";
     Log_hook_error "boom"] /\
  (hook_calls_of "on_error" (trace (Mailer.world s'))).*1.*2 = [0].
Proof. vm_compute. done. Qed.

(** ** The conditions of the amended statements are needed *)

(** Without quiet hooks a message may end neither sent nor failed. *)
Lemma lifecycle_needs_quiet_hooks :
  ~ lifecycle_claim
      (run_calls [Call_add_hook "after_send" hook_mark_opened] example_mailer)
      example_args.
Proof.
  intros (email & s' & created & seen & result & final & Hsend & _ & _ & _ & _ &
          Hfinal & Hstatus & _).
  rewrite send_closed in Hsend. injection Hsend as <- <-.
  vm_compute in Hfinal. injection Hfinal as <-.
  by destruct Hstatus.
Qed.

(** With a clock that runs backwards sentAt precedes createdAt. *)
Lemma lifecycle_needs_monotone_clock :
  ~ lifecycle_claim (Mailer.mkState (Mailer_default None) backwards_world) example_args.
Proof.
  intros (email & s' & created & seen & result & final & Hsend & _ & _ & _ & _ &
          Hfinal & _ & _ & Hle).
  rewrite send_closed in Hsend. injection Hsend as <- <-.
  vm_compute in Hfinal. injection Hfinal as <-.
  specialize (Hle 999%Z eq_refl). simpl in Hle. lia.
Qed.

(** Two messages with the same id take one place in the table. *)
Lemma stats_needs_distinct_ids :
  ~ stats_claim (Mailer.mkState (Mailer_default None) colliding_world)
      [Call_send example_args; Call_send example_args].
Proof.
  intros (st & Hst & Htotal & _).
  vm_compute in Hst. injection Hst as <-.
  vm_compute in Htotal. discriminate Htotal.
Qed.


(** * Further properties of the module *)

(** ** Hooks in general *)

Section EmitFacts.
Context {T : Type} `{!Transport T}.
Implicit Types (s : Mailer.State (T := T)) (hs : list Handler) (h : list Email.t).

Lemma alter_const_insert h email (value : Email.t) :
  alter (fun _ => value) email h = <[email := value]> h.
Proof.
  revert email. induction h as [|x h IH]; intros [|email]; simpl; try done.
  by rewrite <- IH.
Qed.

(** The loop of [_emit] on any live object of the heap. *)
Lemma emit_loop_at event email hs s seen :
  heap (Mailer.world s) !! email = Some seen ->
  Mailer.for_each hs
    (fun handler =>
       Mailer.try_except (Mailer.call_handler event handler email)
                         (fun e => Mailer.logger [Log_hook_error e])) s =
    let r := hooks_run event email hs seen in
    let w := Mailer.world s in
    (Return tt,
     Mailer.mkState (Mailer.self s)
       (mkWorld (<[email := r.1.1]> (heap w)) (uuid4 w) (uuid_calls w) (now w)
                (now_calls w) (log w ++ r.1.2) (trace w ++ r.2))).
Proof.
  revert s seen. induction hs as [|handler hs IH]; intros [m w] seen Hcell; simpl in *.
  - destruct w; simpl in *. by rewrite !app_nil_r, list_insert_id.
  - unfold Mailer.bind at 1, Mailer.try_except, Mailer.call_handler.
    unfold Mailer.bind at 1, Mailer.deref. simpl. rewrite Hcell.
    destruct (handler seen) as [after raised] eqn:Hcall; simpl.
    unfold Mailer.bind, Mailer.observe, Mailer.assign, Mailer.modify_world; simpl.
    rewrite alter_const_insert.
    assert (<[email := after]> (heap w) !! email = Some after) as Hafter.
    { apply list_lookup_insert_eq. by apply lookup_lt_Some in Hcell. }
    destruct raised as [e|]; simpl.
    + rewrite (IH _ after) by done. simpl.
      destruct (hooks_run event email hs after) as [[final records] calls]. simpl.
      by rewrite list_insert_insert_eq, <- !app_assoc.
    + rewrite (IH _ after) by done. simpl.
      destruct (hooks_run event email hs after) as [[final records] calls]. simpl.
      by rewrite list_insert_insert_eq, <- !app_assoc.
Qed.

Lemma emit_at event email s seen :
  heap (Mailer.world s) !! email = Some seen ->
  Mailer._emit event email s =
    let r := hooks_run event email (handlers_of (Mailer.self s) event) seen in
    let w := Mailer.world s in
    (Return tt,
     Mailer.mkState (Mailer.self s)
       (mkWorld (<[email := r.1.1]> (heap w)) (uuid4 w) (uuid_calls w) (now w)
                (now_calls w) (log w ++ r.1.2) (trace w ++ r.2))).
Proof.
  intros Hcell. unfold Mailer._emit, Mailer.bind at 1, Mailer.get.
  by apply emit_loop_at.
Qed.

Lemma hook_calls_of_hooks_run event email hs seen :
  (hooks_run event email hs seen).1.2 =
    hook_errors (hook_calls_of event (hooks_run event email hs seen).2).
Proof.
  revert seen. induction hs as [|handler hs IH]; intros seen; [done|].
  rewrite hooks_run_cons. cbv zeta. cbn [fst snd]. rewrite hook_calls_of_cons.
  unfold hook_errors in *. cbn [omap list_omap fst snd]. rewrite IH.
  by destruct (handler seen).2.
Qed.

(** X1. [_emit] on a live message returns normally whatever the hooks do:
    every handler registered for the event is called, once and in
    registration order, also after a handler that raised; each exception
    of a handler leaves one record in the log, in call order, and nothing
    of the mailer changes. *)
Theorem emit_isolates_hook_failures event email s seen :
  heap (Mailer.world s) !! email = Some seen ->
  let out := Mailer._emit event email s in
  let calls := hook_calls_of event (events_since s out.2) in
  out.1 = Return tt /\
  calls.*1.*1 = handlers_of (Mailer.self s) event /\
  Forall (fun call => call.1.2 = email) calls /\
  log (Mailer.world out.2) = log (Mailer.world s) ++ hook_errors calls /\
  Mailer.self out.2 = Mailer.self s.
Proof.
  intros Hcell. cbv zeta.
  rewrite (emit_at event email s seen Hcell). cbv zeta. cbn [fst snd].
  unfold events_since. cbn [Mailer.world trace log Mailer.self].
  rewrite drop_app_length.
  destruct (hooks_run_handlers event email (handlers_of (Mailer.self s) event) seen)
    as [Hhs Htargets].
  split; [done|]. split; [exact Hhs|]. split; [exact Htargets|]. split; [|done].
  f_equal. apply hook_calls_of_hooks_run.
Qed.

End EmitFacts.

Lemma emit_isolates_hook_failures_witness :
  let s := (Mailer.send example_args
              (run_calls [Call_add_hook "on_error" hook_raising;
                          Call_add_hook "on_error" hook_mark_opened] example_mailer)).2 in
  let out := Mailer._emit "on_error" 0 s in
  is_Some (heap (Mailer.world s) !! 0) /\
  out.1 = Return tt /\
  (hook_calls_of "on_error" (events_since s out.2)).*1.*1 = [hook_raising; hook_mark_opened] /\
  log (Mailer.world out.2) = log (Mailer.world s) ++ [Log_hook_error "boom"].
Proof.
  intros s out.
  assert (exists seen, heap (Mailer.world s) !! 0 = Some seen) as [seen Hseen]
    by (eexists; vm_compute; reflexivity).
  destruct (emit_isolates_hook_failures "on_error" 0 s seen Hseen)
    as (Hret & Hcalls & _ & Hlog & _).
  split; [by exists seen|]. split; [exact Hret|]. split; [exact Hcalls|].
  subst out. rewrite Hlog. f_equal.
Defined.

(** ** More on one [send] call *)

Section SendMore.
Context {T : Type} `{!Transport T}.
Implicit Types (s : Mailer.State (T := T)) (args : SendArgs.t).

#[local] Arguments send_run : simpl never.
#[local] Arguments send_state : simpl never.



Lemma hook_calls_of_send_before args s :
  hook_calls_of "before_send" (events_since s (send_state args s)) =
    hook_calls_of "before_send" (run_before (send_run args s)).2.
Proof.
  rewrite events_since_send. cbv zeta. rewrite !hook_calls_of_app.
  assert (hook_calls_of "before_send" (run_after (send_run args s)).2 = []) as ->.
  { unfold send_run. cbn [run_after run_transport].
    destruct (transport_send _ _ _).2; by apply hooks_run_other_event. }
  by rewrite app_nil_r.
Qed.

(** X2. Every [send] runs all before_send hooks, makes exactly one call to
    the transport (no retry), and then runs the hooks of exactly one of
    the two other events: all after_send hooks and no on_error hook when
    the transport returned, all on_error hooks and no after_send hook when
    it raised -- also when hooks raise. *)
Theorem send_fires_one_branch args s :
  let out := Mailer.send args s in
  let events := events_since s out.2 in
  (hook_calls_of "before_send" events).*1.*1 = handlers_of (Mailer.self s) "before_send" /\
  exists email result,
    out.1 = Return email /\
    transport_calls_of events = [(email, result)] /\
    match result with
    | Return _ =>
        (hook_calls_of "after_send" events).*1.*1 = handlers_of (Mailer.self s) "after_send" /\
        hook_calls_of "on_error" events = []
    | Raise _ =>
        (hook_calls_of "on_error" events).*1.*1 = handlers_of (Mailer.self s) "on_error" /\
        hook_calls_of "after_send" events = []
    end.
Proof.
  cbv zeta. rewrite send_closed. cbn [fst snd].
  split.
  - rewrite hook_calls_of_send_before, send_run_before.
    apply hooks_run_handlers.
  - exists (List.length (heap (Mailer.world s))), (run_transport (send_run args s)).2.
    split; [done|]. split; [apply transport_calls_of_send|].
    rewrite !hook_calls_of_send by done.
    destruct (run_transport (send_run args s)).2 as [b|err] eqn:Hres.
    + destruct (send_run_return _ _ _ Hres) as [_ ->].
      split; [apply hooks_run_handlers|by apply hooks_run_other_event].
    + destruct (send_run_raise _ _ _ Hres) as [_ ->].
      split; [apply hooks_run_handlers|by apply hooks_run_other_event].
Qed.


End SendMore.

(** ** The message table and the template registry *)

Section TableFacts.
Context {T : Type} `{!Transport T}.
Implicit Types (s : Mailer.State (T := T)) (args : SendArgs.t) (c : Call).

#[local] Arguments send_run : simpl never.
#[local] Arguments send_state : simpl never.

Lemma send_state_table args s :
  Mailer.sent_emails (Mailer.self (send_state args s)) =
    <[Email.id (run_after (send_run args s)).1.1 := List.length (heap (Mailer.world s))]>
      (Mailer.sent_emails (Mailer.self s)).
Proof. reflexivity. Qed.

Lemma send_state_templates args s :
  Mailer.templates (Mailer.self (send_state args s)) = Mailer.templates (Mailer.self s).
Proof. reflexivity. Qed.

Lemma sends_state_templates emails s :
  Mailer.templates (Mailer.self (sends_state emails s)) = Mailer.templates (Mailer.self s).
Proof.
  induction emails as [|args emails IH] using rev_ind; [done|].
  by rewrite sends_state_snoc, send_state_templates.
Qed.

Lemma table_consistent_send args s :
  table_consistent s -> table_consistent (send_state args s).
Proof.
  intros Hinv email_id email. rewrite send_state_table, send_state_heap.
  destruct (decide (Email.id (run_after (send_run args s)).1.1 = email_id)) as [<-|Hne].
  - rewrite lookup_insert_eq. intros [= <-]. eexists. split; [apply lookup_last_cell|done].
  - rewrite lookup_insert_ne by done. intros Hold.
    destruct (Hinv _ _ Hold) as (message & Hcell & Hid).
    exists message. split; [by apply lookup_app_l_Some|done].
Qed.

Lemma table_consistent_sends emails s :
  table_consistent s -> table_consistent (sends_state emails s).
Proof.
  intros Hinv. induction emails as [|args emails IH] using rev_ind; [done|].
  rewrite sends_state_snoc. by apply table_consistent_send.
Qed.

Lemma table_consistent_call c s :
  table_consistent s -> table_consistent (run_call c s).
Proof.
  intros Hinv. rewrite run_call_closed.
  destruct c as [event handler|template|args|template_id to context kw|emails|email_id|];
    try done.
  - rewrite add_hook_closed. cbn [snd].
    by destruct (Mailer.hooks (Mailer.self s) !! event).
  - by apply table_consistent_send.
  - destruct (Mailer.templates (Mailer.self s) !! template_id); [|done].
    by apply table_consistent_send.
  - by apply table_consistent_sends.
Qed.

Lemma table_consistent_reachable s : reachable s -> table_consistent s.
Proof.
  intros (s0 & calls & (transport & default_from & Hinit) & ->).
  assert (table_consistent s0) as Hinv.
  { intros email_id email. rewrite Hinit. simpl. by rewrite lookup_empty. }
  clear Hinit. revert s0 Hinv.
  induction calls as [|c calls IH]; intros s0 Hinv; [done|].
  rewrite run_calls_cons. by apply IH, table_consistent_call.
Qed.

(** X4. What [send] stores, [get_email] finds: after [send] returned a
    message, [get_email] with the id of that message returns the same
    object and changes nothing. *)
Theorem get_email_after_send args s :
  let out := Mailer.send args s in
  exists email message,
    out.1 = Return email /\
    heap (Mailer.world out.2) !! email = Some message /\
    Mailer.get_email (Email.id message) out.2 = (Return (Some email), out.2).
Proof.
  cbv zeta. rewrite send_closed. cbn [fst snd].
  exists (List.length (heap (Mailer.world s))), (run_after (send_run args s)).1.1.
  split; [done|]. split; [rewrite send_state_heap; apply lookup_last_cell|].
  unfold Mailer.get_email, Mailer.bind, Mailer.get, Mailer.ret.
  by rewrite send_state_table, lookup_insert_eq.
Qed.

(** X5. On a mailer that was constructed and used through its methods,
    [get_email] never returns a dangling or a wrong message: when it
    returns a reference for an id, the reference leads to a message of the
    heap and that message has this id. *)
Theorem get_email_returns_message_of_id s email_id email :
  reachable s ->
  (Mailer.get_email email_id s).1 = Return (Some email) ->
  exists message,
    heap (Mailer.world s) !! email = Some message /\ Email.id message = email_id.
Proof.
  intros Hreach Hget. apply (table_consistent_reachable s Hreach).
  unfold Mailer.get_email, Mailer.bind, Mailer.get, Mailer.ret in Hget.
  cbn [fst] in Hget. congruence.
Qed.

Lemma run_call_keeps_keys c s :
  (forall email_id, is_Some (Mailer.sent_emails (Mailer.self s) !! email_id) ->
                    is_Some (Mailer.sent_emails (Mailer.self (run_call c s)) !! email_id)) /\
  (forall template_id, is_Some (Mailer.templates (Mailer.self s) !! template_id) ->
                       is_Some (Mailer.templates (Mailer.self (run_call c s)) !! template_id)).
Proof.
  assert (forall args s,
            forall email_id, is_Some (Mailer.sent_emails (Mailer.self s) !! email_id) ->
              is_Some (Mailer.sent_emails (Mailer.self (send_state args s)) !! email_id))
    as Hsend.
  { intros args s1 email_id Hold. rewrite send_state_table.
    destruct (decide (Email.id (run_after (send_run args s1)).1.1 = email_id)) as [<-|Hne].
    - rewrite lookup_insert_eq. eauto.
    - by rewrite lookup_insert_ne. }
  rewrite run_call_closed.
  destruct c as [event handler|template|args|template_id to context kw|emails|email_id|];
    try done.
  - rewrite add_hook_closed. cbn [snd].
    by destruct (Mailer.hooks (Mailer.self s) !! event).
  - split; [done|]. intros template_id Hold. cbn [Mailer.self Mailer.set_templates Mailer.templates].
    destruct (decide (EmailTemplate.id template = template_id)) as [<-|Hne].
    + rewrite lookup_insert_eq. eauto.
    + by rewrite lookup_insert_ne.
  - split; [apply Hsend|done].
  - destruct (Mailer.templates (Mailer.self s) !! template_id); [|done].
    split; [apply Hsend|done].
  - split.
    + induction emails as [|args emails IH] using rev_ind; [done|].
      intros email_id Hold. rewrite sends_state_snoc. by apply Hsend, IH.
    + by rewrite sends_state_templates.
Qed.

(** X6. Nothing is ever removed: an id that leads to a message stays in
    the message table through every later call, and a registered template
    id stays in the registry (under a key a later message or template may
    take the place of the earlier one). *)
Theorem mailer_never_forgets calls s :
  (forall email_id, is_Some (Mailer.sent_emails (Mailer.self s) !! email_id) ->
     is_Some (Mailer.sent_emails (Mailer.self (run_calls calls s)) !! email_id)) /\
  (forall template_id, is_Some (Mailer.templates (Mailer.self s) !! template_id) ->
     is_Some (Mailer.templates (Mailer.self (run_calls calls s)) !! template_id)).
Proof.
  revert s. induction calls as [|c calls IH]; intros s; [done|].
  rewrite run_calls_cons. destruct (IH (run_call c s)) as [IH1 IH2].
  destruct (run_call_keeps_keys c s) as [H1 H2].
  split; intros key Hold; [apply IH1, H1|apply IH2, H2]; done.
Qed.

End TableFacts.

Lemma get_email_returns_message_of_id_witness :
  let s := run_calls [Call_send_bulk example_bulk] smtp_mailer in
  reachable s /\
  (Mailer.get_email "2c9a1e7-52b4" s).1 = Return (Some 1) /\
  exists message,
    heap (Mailer.world s) !! 1 = Some message /\ Email.id message = "2c9a1e7-52b4".
Proof.
  intros s.
  assert (reachable s) as Hreach.
  { exists smtp_mailer, [Call_send_bulk example_bulk]. split; [|done].
    exact smtp_mailer_constructed. }
  assert ((Mailer.get_email "2c9a1e7-52b4" s).1 = Return (Some 1)) as Hget
    by (vm_compute; reflexivity).
  split; [exact Hreach|]. split; [exact Hget|].
  exact (get_email_returns_message_of_id s "2c9a1e7-52b4" 1 Hreach Hget).
Defined.

Lemma mailer_never_forgets_witness :
  let s := run_calls [Call_register_template welcome_template; Call_send example_args]
                     example_mailer in
  is_Some (Mailer.sent_emails (Mailer.self s) !! "0c9a1e7-52b4") /\
  is_Some (Mailer.templates (Mailer.self s) !! "welcome") /\
  is_Some (Mailer.sent_emails (Mailer.self (run_calls example_calls s)) !! "0c9a1e7-52b4") /\
  is_Some (Mailer.templates (Mailer.self (run_calls example_calls s)) !! "welcome").
Proof.
  intros s.
  assert (is_Some (Mailer.sent_emails (Mailer.self s) !! "0c9a1e7-52b4")) as H1
    by (vm_compute; eauto).
  assert (is_Some (Mailer.templates (Mailer.self s) !! "welcome")) as H2
    by (vm_compute; eauto).
  split; [exact H1|]. split; [exact H2|].
  split.
  - exact (proj1 (mailer_never_forgets example_calls s) _ H1).
  - exact (proj2 (mailer_never_forgets example_calls s) _ H2).
Defined.

Section TemplateMore.
Context {T : Type} `{!Transport T}.
Implicit Types (s : Mailer.State (T := T)) (template : EmailTemplate.t).

#[local] Arguments send_run : simpl never.
#[local] Arguments send_state : simpl never.

(** X7. Registration replaces: after [register_template], whatever was
    registered under the template's id before, [send_template] with that
    id creates and returns one message, built for the given recipients from
    the three texts of this template with the context substituted; without
    a context the texts are taken as they are written. *)
Theorem send_template_uses_registered_template template to context kw s :
  let s1 := (Mailer.register_template template s).2 in
  let out := Mailer.send_template (EmailTemplate.id template) to context kw s1 in
  exists email created,
    out.1 = Return (Some email) /\
    created_of (events_since s1 out.2) = [(email, created)] /\
    Email.to created = map Mailer.normalize to /\
    Email.subject created =
      substitute (default [] context) (EmailTemplate.subject template) /\
    Email.body_text created =
      substitute (default [] context) (EmailTemplate.body_text template) /\
    Email.body_html created =
      substitute (default [] context) (EmailTemplate.body_html template).
Proof.
  cbv zeta.
  set (s1 := (Mailer.register_template template s).2).
  assert (Mailer.templates (Mailer.self s1) !! EmailTemplate.id template = Some template)
    as Hreg by apply lookup_insert_eq.
  rewrite (send_template_known _ to context kw s1 template Hreg). cbv zeta. cbn [fst snd].
  eexists _, _. split; [done|]. split; [apply created_of_send|].
  rewrite render_components. cbn [fst snd].
  destruct (send_run_built_from
              (SendArgs.mk to
                 (substitute (default [] context) (EmailTemplate.subject template))
                 (substitute (default [] context) (EmailTemplate.body_text template))
                 (substitute (default [] context) (EmailTemplate.body_html template)) kw) s1)
    as (Hto & Hsubject & Htext & Hhtml).
  done.
Qed.

End TemplateMore.

(** ** MockTransport *)

Section MockFacts.
Implicit Types (s : Mailer.State (T := MockTransport.t)) (args : SendArgs.t)
  (emails : list SendArgs.t).

#[local] Arguments send_run : simpl never.
#[local] Arguments send_state : simpl never.

Lemma mock_run_transport args s :
  (run_transport (send_run args s)).2 = Return true /\
  MockTransport.sent_emails (run_transport (send_run args s)).1.1 =
    MockTransport.sent_emails (Mailer.transport (Mailer.self s))
    ++ [List.length (heap (Mailer.world s))].
Proof. done. Qed.

Lemma mock_send_state args s :
  MockTransport.sent_emails (Mailer.transport (Mailer.self (send_state args s))) =
    MockTransport.sent_emails (Mailer.transport (Mailer.self s))
    ++ [List.length (heap (Mailer.world s))] /\
  transport_calls_of (events_since s (send_state args s)) =
    [(List.length (heap (Mailer.world s)), Return true)] /\
  hook_calls_of "on_error" (events_since s (send_state args s)) = [].
Proof.
  destruct (mock_run_transport args s) as [Hres Hcaptured].
  split; [exact Hcaptured|]. split.
  - by rewrite transport_calls_of_send, Hres.
  - rewrite hook_calls_of_send by done.
    destruct (send_run_return _ _ _ Hres) as [_ ->].
    by apply hooks_run_other_event.
Qed.

Lemma mock_sends_state emails s :
  MockTransport.sent_emails (Mailer.transport (Mailer.self (sends_state emails s))) =
    MockTransport.sent_emails (Mailer.transport (Mailer.self s))
    ++ seq (List.length (heap (Mailer.world s))) (List.length emails) /\
  (transport_calls_of (events_since s (sends_state emails s))).*2 =
    replicate (List.length emails) (Return true) /\
  hook_calls_of "on_error" (events_since s (sends_state emails s)) = [].
Proof.
  induction emails as [|args emails (IH1 & IH2 & IH3)] using rev_ind.
  - unfold events_since. simpl. by rewrite drop_all, app_nil_r.
  - destruct (mock_send_state args (sends_state emails s)) as (H1 & H2 & H3).
    rewrite events_since_sends_snoc, transport_calls_of_app, hook_calls_of_app, fmap_app.
    rewrite sends_state_snoc, H1, H2, H3, IH1, IH2, IH3.
    rewrite sends_state_heap_length, !length_app, seq_app, replicate_add, <- app_assoc.
    done.
Qed.

(** X8. With a [MockTransport] no send fails: the transport returns True
    for every entry of a bulk send, no on_error hook is called, and the
    transport's capture list grows by exactly the references that
    [send_bulk] returns, in the same order -- the captured objects are the
    stored messages themselves, not copies. *)
Theorem mock_transport_captures_every_message emails s :
  let out := Mailer.send_bulk emails s in
  exists results,
    out.1 = Return results /\
    MockTransport.sent_emails (Mailer.transport (Mailer.self out.2)) =
      MockTransport.sent_emails (Mailer.transport (Mailer.self s)) ++ results /\
    (transport_calls_of (events_since s out.2)).*2 =
      replicate (List.length emails) (Return true) /\
    hook_calls_of "on_error" (events_since s out.2) = [].
Proof.
  cbv zeta. rewrite send_bulk_closed. cbn [fst snd].
  eexists. split; [done|]. apply mock_sends_state.
Qed.

End MockFacts.

(** ** More on the SMTP transport *)

Section SMTPMore.
Implicit Types (self : SMTPTransport.t) (email : Email.t) (msg : MIMEMultipart).

(** A session that ends without exception has handed one envelope to
    [sendmail], and the server took it. *)
Lemma session_success self email msg :
  (SMTPTransport.session self email msg).2 = None ->
  exists from_addr,
    Email.from_addr email = Some from_addr /\
    let env := mkEnvelope (EmailAddress.email from_addr) (SMTPTransport.recipients email) msg in
    (SMTPTransport.session self email msg).1 = smtp_submit env (SMTPTransport.wire self) /\
    smtp_sendmail (SMTPTransport.wire self) env = None.
Proof.
  unfold SMTPTransport.session.
  destruct (smtp_connect _ _ _); [done|].
  destruct (if SMTPTransport.use_tls self then _ else _); [done|].
  destruct (match SMTPTransport.username self with EmptyString => _ | _ => _ end); [done|].
  destruct (Email.from_addr email) as [from_addr|]; [|done].
  simpl. intros Hok. by exists from_addr.
Qed.

(** X9. [SMTPTransport.send] returns only True, and only after it handed
    exactly one envelope to [sendmail] and the server accepted it; it then
    logs nothing.  When it raises, either the message could not be
    assembled, and then nothing was logged and nothing was exchanged with
    the server, or the session failed, and then the exception raised is the
    session's and was logged once as SMTP error. *)
Theorem smtp_send_outcome self email :
  match SMTPTransport.send self email with
  | (self', records, Return b) =>
      b = true /\ records = [] /\
      exists env, submitted_by self email = [env] /\
                  smtp_sendmail (SMTPTransport.wire self) env = None
  | (self', records, Raise e) =>
      (SMTPTransport.build_message email = Raise e /\ records = [] /\ self' = self) \/
      (exists msg, SMTPTransport.build_message email = Return msg /\
                   (SMTPTransport.session self email msg).2 = Some e /\
                   records = [Log_smtp_error e])
  end.
Proof.
  unfold submitted_by, SMTPTransport.send.
  destruct (SMTPTransport.build_message email) as [msg|e] eqn:Hmsg.
  - destruct (SMTPTransport.session self email msg) as [w [e|]] eqn:Hsession.
    + right. exists msg. by rewrite Hsession.
    + destruct (session_success self email msg) as (from_addr & _ & Hw & Hok).
      { by rewrite Hsession. }
      rewrite Hsession in Hw. cbn [fst snd] in *. subst w.
      split; [done|]. split; [done|]. eexists. split; [|exact Hok].
      cbn [SMTPTransport.set_wire SMTPTransport.wire smtp_submit smtp_submitted].
      by rewrite drop_app_length.
  - left. done.
Qed.

Lemma send_raises_without_sender self email :
  Email.from_addr email = None ->
  exists e, (SMTPTransport.send self email).2 = Raise e.
Proof.
  intros Hnone. unfold SMTPTransport.send.
  destruct (SMTPTransport.build_message email) as [msg|e]; [|by eauto].
  destruct (SMTPTransport.session self email msg) as [w [e|]] eqn:Hsession; [by eauto|].
  destruct (session_success self email msg) as (from_addr & Hfrom & _).
  - by rewrite Hsession.
  - congruence.
Qed.

(** X10. A message without sender is never submitted: [SMTPTransport.send]
    raises for it whatever the server does, and hands no envelope to
    [sendmail]. *)
Theorem smtp_needs_sender self email :
  Email.from_addr email = None ->
  (exists e, (SMTPTransport.send self email).2 = Raise e) /\
  submitted_by self email = [].
Proof.
  intros Hnone. split; [by apply send_raises_without_sender|].
  destruct (submitted_by_cases self email) as [Hnil|(f & msg & Hf & _)]; congruence.
Qed.

Lemma split_length (c : Ascii.ascii) (s : string) :
  List.length (Str.split c s) = S (count_char c s).
Proof.
  induction s as [|c' s IH]; [done|]. simpl.
  destruct (Ascii.eqb c' c); simpl; [by rewrite IH|].
  destruct (Str.split c s); simpl in *; lia.
Qed.

Lemma build_attachment_raises (a : Attachment.t) :
  count_char "/" (Attachment.content_type a) <> 1 ->
  exists e, SMTPTransport.build_attachment a = Raise e.
Proof.
  intros Hcount. unfold SMTPTransport.build_attachment.
  pose proof (split_length "/" (Attachment.content_type a)) as Hlen.
  destruct (Str.split "/" (Attachment.content_type a)) as [|p1 [|p2 [|p3 ps]]];
    simpl in Hlen; try by eauto.
  lia.
Qed.

Lemma build_attachments_raises (l : list Attachment.t) :
  Exists (fun a => count_char "/" (Attachment.content_type a) <> 1) l ->
  exists e, SMTPTransport.build_attachments l = Raise e.
Proof.
  induction 1 as [a l Hbad|a l Hbad [e IH]]; simpl.
  - destruct (build_attachment_raises a Hbad) as [e ->]. eauto.
  - destruct (SMTPTransport.build_attachment a); [|by eauto].
    rewrite IH. eauto.
Qed.

(** X11. An attachment whose content type is not a main type and a subtype
    separated by exactly one slash makes [SMTPTransport.send] raise before
    it opens a connection: the transport is left as it was, no envelope is
    submitted and nothing is logged. *)
Theorem smtp_rejects_malformed_content_type self email :
  Exists (fun a => count_char "/" (Attachment.content_type a) <> 1)
         (Email.attachments email) ->
  exists e, SMTPTransport.send self email = (self, [], Raise e).
Proof.
  intros Hbad. destruct (build_attachments_raises _ Hbad) as [e He].
  exists e. unfold SMTPTransport.send, SMTPTransport.build_message. by rewrite He.
Qed.

(** X12. Blind copies: every address of [bcc] is among the recipients of
    the submitted envelope, while the transport itself writes no Bcc
    header: a Bcc header of the submitted message can only be one of the
    message's own custom headers. *)
Theorem smtp_bcc_is_blind self email env :
  env ∈ submitted_by self email ->
  (forall a, a ∈ Email.bcc email -> EmailAddress.email a ∈ env_rcpt env) /\
  (forall value, ("Bcc", value) ∈ mime_headers (env_data env) ->
                 ("Bcc", value) ∈ Email.headers email).
Proof.
  intros Hin.
  destruct (submitted_by_cases self email) as [Hnone|(f & msg & _ & Hmsg & Hone)].
  { rewrite Hnone in Hin. by apply elem_of_nil in Hin. }
  rewrite Hone in Hin. apply list_elem_of_singleton in Hin as ->. cbn [env_rcpt env_data].
  split.
  - intros a Ha. unfold SMTPTransport.recipients.
    apply list_elem_of_fmap. exists a. split; [done|].
    rewrite !elem_of_app. auto.
  - intros value Hheader. unfold SMTPTransport.build_message in Hmsg.
    destruct (SMTPTransport.build_attachments (Email.attachments email)); [|done].
    injection Hmsg as <-. cbn [mime_headers] in Hheader.
    unfold SMTPTransport.build_headers in Hheader.
    rewrite !elem_of_app in Hheader.
    destruct Hheader as [Hfixed|[Hcc|[Hreply|Hcustom]]]; [| | |done].
    + rewrite !elem_of_cons in Hfixed.
      destruct Hfixed as [[=]|[[=]|[[=]|Hnil]]]. by apply elem_of_nil in Hnil.
    + destruct (Email.cc email); [by apply elem_of_nil in Hcc|].
      apply list_elem_of_singleton in Hcc. done.
    + destruct (Email.reply_to email); [|by apply elem_of_nil in Hreply].
      apply list_elem_of_singleton in Hreply. done.
Qed.

End SMTPMore.

Lemma smtp_needs_sender_witness :
  Email.from_addr email_without_sender = None /\
  (SMTPTransport.send example_smtp email_without_sender).2 =
    Raise "'NoneType' object has no attribute 'email'" /\
  submitted_by example_smtp email_without_sender = [].
Proof.
  split; [reflexivity|]. split; [reflexivity|].
  exact (proj2 (smtp_needs_sender example_smtp email_without_sender eq_refl)).
Defined.

Lemma smtp_rejects_malformed_content_type_witness :
  Exists (fun a => count_char "/" (Attachment.content_type a) <> 1)
         (Email.attachments email_with_bad_attachment) /\
  exists e, SMTPTransport.send example_smtp email_with_bad_attachment = (example_smtp, [], Raise e).
Proof.
  assert (Exists (fun a => count_char "/" (Attachment.content_type a) <> 1)
                 (Email.attachments email_with_bad_attachment)) as Hbad.
  { apply Exists_cons_tl, Exists_cons_hd. vm_compute. lia. }
  split; [exact Hbad|].
  exact (smtp_rejects_malformed_content_type example_smtp email_with_bad_attachment Hbad).
Defined.

Lemma smtp_bcc_is_blind_witness :
  exists env,
    env ∈ submitted_by example_smtp email_to_alice_twice /\
    "bob@example.com" ∈ env_rcpt env /\
    forall value, ("Bcc", value) ∈ mime_headers (env_data env) -> False.
Proof.
  eexists.
  assert (Hin : mkEnvelope "noreply@example.com"
                  ["alice@example.com"; "alice@example.com"; "bob@example.com"]
                  (mkMIME "alternative"
                     (SMTPTransport.build_headers email_to_alice_twice)
                     (SMTPTransport.build_bodies email_to_alice_twice))
                ∈ submitted_by example_smtp email_to_alice_twice) by (vm_compute; left).
  split; [exact Hin|].
  destruct (smtp_bcc_is_blind example_smtp email_to_alice_twice _ Hin) as [Hbcc Hheader].
  split.
  - apply (Hbcc bob). vm_compute. left.
  - intros value Hvalue. apply Hheader in Hvalue. by apply elem_of_nil in Hvalue.
Defined.

(** ** EmailBuilder *)

Section BuilderFacts.
Implicit Types (steps : list EmailBuilder.Step) (b : EmailBuilder.t).

Lemma chain_snoc steps c :
  EmailBuilder.chain (steps ++ [c]) = EmailBuilder.step c (EmailBuilder.chain steps).
Proof. unfold EmailBuilder.chain. by rewrite fold_left_app. Qed.

Lemma addresses_of_app (l1 l2 : list string) :
  EmailBuilder.addresses_of (l1 ++ l2) =
    EmailBuilder.addresses_of l1 ++ EmailBuilder.addresses_of l2.
Proof. apply map_app. Qed.

Lemma last_omap_snoc {A B} (f : A -> option B) (l : list A) (x : A) :
  last (omap f (l ++ [x])) = match f x with Some y => Some y | None => last (omap f l) end.
Proof.
  rewrite omap_app. simpl. destruct (f x); simpl.
  - by rewrite last_snoc.
  - by rewrite app_nil_r.
Qed.

(** X13. A chain of builder calls accumulates and overwrites: the
    addresses of all [to] calls, of all [cc] calls and of all [bcc] calls,
    and all attachments, are kept in call order; subject, text, HTML,
    sender and reply-to are those of the last call that set them, and empty
    (or None) when no call did. *)
Theorem builder_accumulates steps :
  let b := EmailBuilder.chain steps in
  EmailBuilder._to b = EmailBuilder.addresses_of (steps_to steps) /\
  EmailBuilder._cc b = EmailBuilder.addresses_of (steps_cc steps) /\
  EmailBuilder._bcc b = EmailBuilder.addresses_of (steps_bcc steps) /\
  EmailBuilder._attachments b = steps_attachments steps /\
  EmailBuilder._subject b = default "" (steps_subject steps) /\
  EmailBuilder._body_text b = default "" (steps_text steps) /\
  EmailBuilder._body_html b = default "" (steps_html steps) /\
  EmailBuilder._from b = steps_from steps /\
  EmailBuilder._reply_to b = steps_reply_to steps.
Proof.
  cbv zeta. induction steps as [|c steps IH] using rev_ind; [done|].
  destruct IH as (H1 & H2 & H3 & H4 & H5 & H6 & H7 & H8 & H9).
  rewrite chain_snoc.
  unfold steps_to, steps_cc, steps_bcc, steps_attachments, steps_subject, steps_text,
    steps_html, steps_from, steps_reply_to in *.
  rewrite !flat_map_app, !last_omap_snoc, !addresses_of_app.
  destruct c; cbn [EmailBuilder.step flat_map EmailBuilder.to EmailBuilder.cc
    EmailBuilder.bcc EmailBuilder.from_address EmailBuilder.reply_to EmailBuilder.subject
    EmailBuilder.text EmailBuilder.html EmailBuilder.attach EmailBuilder._to
    EmailBuilder._cc EmailBuilder._bcc EmailBuilder._attachments EmailBuilder._subject
    EmailBuilder._body_text EmailBuilder._body_html EmailBuilder._from
    EmailBuilder._reply_to default];
    rewrite ?app_nil_r, ?addresses_of_app; cbn [EmailBuilder.addresses_of map app];
    rewrite ?app_nil_r;
    repeat split; congruence.
Qed.

Lemma chain_sender steps :
  EmailBuilder._from (EmailBuilder.chain steps) = steps_from steps.
Proof.
  induction steps as [|c steps IH] using rev_ind; [done|].
  unfold steps_from in *. rewrite chain_snoc, last_omap_snoc.
  by destruct c.
Qed.

Lemma chain_recipients_unnamed steps :
  Forall (fun a => EmailAddress.name a = "") (EmailBuilder._to (EmailBuilder.chain steps)).
Proof.
  induction steps as [|c steps IH] using rev_ind; [by constructor|].
  rewrite chain_snoc. destruct c; try done.
  cbn [EmailBuilder.step EmailBuilder.to EmailBuilder._to].
  apply Forall_app. split; [done|].
  unfold EmailBuilder.addresses_of. by apply Forall_fmap, Forall_true.
Qed.

Lemma normalize_build_to (l : list EmailAddress.t) :
  Forall (fun a => EmailAddress.name a = "") l ->
  map Mailer.normalize (map (fun addr => ToStr (EmailAddress.email addr)) l) = l.
Proof.
  induction 1 as [|[email name] l Hname Hall IH]; [done|].
  simpl in *. by rewrite IH, Hname.
Qed.

End BuilderFacts.

Section BuilderSend.
Context {T : Type} `{!Transport T}.
Implicit Types (s : Mailer.State (T := T)) (steps : list EmailBuilder.Step).

#[local] Arguments send_run : simpl never.
#[local] Arguments send_state : simpl never.

(** X14. What a builder chain collected is what [send] makes the message
    of: given [build()] of the chain, [send] constructs one message whose
    recipients, copies, blind copies, subject, bodies, attachments and
    reply-to are the builder's, and whose sender is the builder's too --
    None when [from_address] was never called, not the mailer's default
    sender, because [build] always passes the key. *)
Theorem builder_send_round_trip steps s :
  let b := EmailBuilder.chain steps in
  let out := Mailer.send (EmailBuilder.build b) s in
  exists email created,
    out.1 = Return email /\
    created_of (events_since s out.2) = [(email, created)] /\
    Email.to created = EmailBuilder._to b /\
    Email.cc created = EmailBuilder._cc b /\
    Email.bcc created = EmailBuilder._bcc b /\
    Email.subject created = EmailBuilder._subject b /\
    Email.body_text created = EmailBuilder._body_text b /\
    Email.body_html created = EmailBuilder._body_html b /\
    Email.attachments created = EmailBuilder._attachments b /\
    Email.reply_to created = EmailBuilder._reply_to b /\
    Email.from_addr created = EmailBuilder._from b /\
    Email.status created = PENDING.
Proof.
  cbv zeta. rewrite send_closed. cbn [fst snd].
  eexists _, _. split; [done|]. split; [apply created_of_send|].
  split.
  - destruct (send_run_built_from (EmailBuilder.build (EmailBuilder.chain steps)) s)
      as (-> & _).
    apply normalize_build_to, chain_recipients_unnamed.
  - by repeat split.
Qed.

End BuilderSend.

Section BuilderSMTP.
Implicit Types (s : Mailer.State (T := SMTPTransport.t)) (steps : list EmailBuilder.Step).

#[local] Arguments send_run : simpl never.
#[local] Arguments send_state : simpl never.

Lemma hooks_run_keeps_sender event email (hs : list Handler) seen :
  Forall (fun h => forall e, Email.from_addr (h e).1 = Email.from_addr e) hs ->
  Email.from_addr (hooks_run event email hs seen).1.1 = Email.from_addr seen.
Proof.
  intros Hall.
  apply (hooks_run_keeps (fun e => Email.from_addr e = Email.from_addr seen)); [|done].
  eapply Forall_impl; [exact Hall|]. intros h Hh e He. by rewrite Hh.
Qed.

(** X15. A message built by a chain without [from_address] cannot be sent
    over SMTP: unless a before_send hook gives it a sender, the transport
    call of [send] raises, whatever the server would answer and whatever
    default sender the mailer has. *)
Theorem builder_without_sender_fails_over_smtp steps s :
  steps_from steps = None ->
  Forall (fun h => forall e, Email.from_addr (h e).1 = Email.from_addr e)
         (handlers_of (Mailer.self s) "before_send") ->
  let out := Mailer.send (EmailBuilder.build (EmailBuilder.chain steps)) s in
  exists email e,
    out.1 = Return email /\
    transport_calls_of (events_since s out.2) = [(email, Raise e)].
Proof.
  intros Hfrom Hhooks. cbv zeta. rewrite send_closed. cbn [fst snd].
  rewrite transport_calls_of_send.
  set (args := EmailBuilder.build (EmailBuilder.chain steps)).
  assert (Email.from_addr (run_seen (send_run args s)) = None) as Hseen.
  { rewrite send_run_seen. cbn [Email.set_status Email.from_addr].
    rewrite send_run_before, hooks_run_keeps_sender by done.
    change (Email.from_addr (run_created (send_run args s)))
      with (EmailBuilder._from (EmailBuilder.chain steps)).
    by rewrite chain_sender. }
  destruct (send_raises_without_sender (Mailer.transport (Mailer.self s))
              (run_seen (send_run args s)) Hseen) as [e He].
  exists (List.length (heap (Mailer.world s))), e. split; [done|].
  do 2 f_equal. exact He.
Qed.

End BuilderSMTP.

Lemma builder_without_sender_fails_over_smtp_witness :
  let out := Mailer.send (EmailBuilder.build (EmailBuilder.chain report_steps)) smtp_mailer in
  steps_from report_steps = None /\
  out.1 = Return 0 /\
  transport_calls_of (events_since smtp_mailer out.2) =
    [(0, Raise "'NoneType' object has no attribute 'email'")].
Proof.
  intros out.
  assert (steps_from report_steps = None) as Hfrom by reflexivity.
  destruct (builder_without_sender_fails_over_smtp report_steps smtp_mailer Hfrom)
    as (email & e & Hret & Hcalls).
  { vm_compute. constructor. }
  split; [exact Hfrom|]. split; [reflexivity|]. reflexivity.
Defined.

(** The chain of [example_usage], sent through the default mailer. *)
Example builder_example :
  let out := Mailer.send (EmailBuilder.build (EmailBuilder.chain report_steps)) example_mailer in
  (Email.status <$> heap (Mailer.world out.2) !! 0) = Some SENT /\
  (Email.from_addr <$> heap (Mailer.world out.2) !! 0) = Some None /\
  (Email.cc <$> heap (Mailer.world out.2) !! 0) =
    Some [EmailAddress.mk "manager@example.com" ""].
Proof. vm_compute. done. Qed.

(** ** The numbers of [stats] *)

Section StatsBounds.
Context {T : Type} `{!Transport T}.
Implicit Types (s : Mailer.State (T := T)) (h : list Email.t) (emails : list loc).

(** A message has one status, so it is counted at most once. *)
Lemma count_status_disjoint h emails :
  Mailer.count_status h emails SENT + Mailer.count_status h emails FAILED
    + Mailer.count_status h emails PENDING <= List.length emails.
Proof.
  unfold Mailer.count_status.
  induction emails as [|email emails IH]; [done|].
  rewrite !filter_cons. cbn [List.length].
  destruct (Email.status <$> h !! email) as [[]|];
    repeat (match goal with |- context [decide ?P] => destruct (decide P) end);
    try congruence; cbn [List.length]; lia.
Qed.

(** X16. [stats] leaves the mailer as it is and returns four numbers:
    "total" is the number of ids in the message table, and "sent", "failed"
    and "pending" together never exceed it (they fall short of it by the
    messages whose status is none of the three). *)
Theorem stats_counts_within_total s :
  exists total sent failed pending,
    Mailer.stats s =
      (Return (<["total" := total]> (<["sent" := sent]>
         (<["failed" := failed]> (<["pending" := pending]> ∅)))), s) /\
    total = size (Mailer.sent_emails (Mailer.self s)) /\
    sent + failed + pending <= total.
Proof.
  rewrite stats_closed. cbn zeta.
  eexists _, _, _, _. split; [reflexivity|]. split.
  - by rewrite length_fmap, length_map_to_list.
  - apply count_status_disjoint.
Qed.

End StatsBounds.
